(** * go-tls-certificate-loader: the reloading TLS key-pair loader

    A shallow embedding of [loader.go] (package [tls_certificate_loader])
    and the properties of its construction, check cycle, accessor and
    shutdown.

    The Go code talks to three things that lie outside the package: the
    file system ([os.Stat], [tls.LoadX509KeyPair]), the user's callbacks
    ([OnReload], [OnError]) and the Go runtime (mutex, channel, goroutine).
    The embedding keeps each of them explicit:

    - the file system is an oracle indexed by a logical clock: every I/O
      call consults the oracle at the current tick and advances the clock,
      so the files may change between any two calls;
    - every call that leaves the package, every mutex operation and every
      access to a mutable field of the loader is recorded as an [event];
    - a computation may finish, panic, or block forever ([outcome]).

    The bodies of the callbacks are not part of the package: a call is
    recorded with its argument and has no effect on the loader.  A
    certificate lives in a heap cell and is published by its address, so
    that two loads of the same files give two different pointers.

    Methods are first studied one call at a time, then in sequences of
    calls on one loader ([reachable]), and, for the mutex, as threads whose
    events are interleaved one by one ([Threads]). *)

From Stdlib Require Import ZArith String Bool List Lia.
Import ListNotations.

Set Implicit Arguments.

Open Scope string_scope.
Open Scope list_scope.
Open Scope nat_scope.

(* ================================================================== *)
(** ** Values of the Go standard library used by the loader *)

(** [time.Time] as read from a file's metadata: seconds since the Unix
    epoch (an int64) and the nanoseconds within that second. *)
Record Time : Type := mkTime { unixSec : Z; nsec : Z }.

(** Two's complement wrap-around of int64 arithmetic. *)
Definition wrap64 (z : Z) : Z := ((z + 2 ^ 63) mod 2 ^ 64 - 2 ^ 63)%Z.

(** [Time.UnixMilli]: [t.unixSec()*1e3 + int64(t.nsec())/1e6], on int64. *)
Definition UnixMilli (t : Time) : Z :=
  wrap64 (wrap64 (unixSec t * 1000) + nsec t / 1000000).


(** The instant as a count of nanoseconds since the epoch. *)
Definition unixNanoZ (t : Time) : Z := (unixSec t * 1000000000 + nsec t)%Z.

(** A well-formed time whose count of whole milliseconds since the epoch
    is an int64: the times for which [Time.UnixMilli] is defined. *)
Definition fits_int64_millis (t : Time) : Prop :=
  (0 <= nsec t < 1000000000 /\
   - 2 ^ 63 <= unixNanoZ t / 1000000 < 2 ^ 63)%Z.

(** Go [error] values, identified by their message. *)
Definition error : Type := string.

(** [os.FileInfo]: only the modification time is read by the loader. *)
Record FileInfo : Type := mkFileInfo { ModTime : Time }.

(** [tls.Certificate]: the parsed chain and its private key. *)
Record Certificate : Type := mkCertificate {
  CertificateChain : list string;
  PrivateKey : string
}.

(** [*tls.Certificate]: [None] is nil, [Some a] the address of a cell. *)
Definition ptr : Type := option nat.

(** [tls.ClientHelloInfo], of which the loader reads nothing. *)
Record ClientHelloInfo : Type := mkClientHelloInfo { ServerName : string }.

(** A non-nil Go func value, identified by its code. *)
Definition func : Type := nat.

(** A buffered [chan struct{}]: its capacity and the number of queued items. *)
Record Chan : Type := mkChan { chanCap : nat; chanLen : nat }.

(* ================================================================== *)
(** ** The loader's data *)

(** Modelled from the spec: the declaration of [TlsCertificateLoaderConfig]
    is not part of the sources at hand.  The five fields are the ones
    [loader.go] reads; their types follow from how it uses them
    (paths given to [os.Stat], a [time.Duration] given to [time.After] and
    compared with 0, two func values compared with nil and called). *)
Record TlsCertificateLoaderConfig : Type := mkConfig {
  CertificatePath : string;
  KeyPath : string;
  CheckReloadPeriod : Z;
  OnReload : option func;
  OnError : option func
}.

(** [struct TlsCertificateLoader].  [mu] is the state of the mutex the
    field points to ([true]: held); [closeChan] is nil or the channel. *)
Record TlsCertificateLoader : Type := mkLoader {
  config : TlsCertificateLoaderConfig;
  mu : bool;
  closed : bool;
  closeChan : option Chan;
  certificate : ptr;
  certModTime : Time;
  keyModTime : Time
}.

Definition set_mu (b : bool) (l : TlsCertificateLoader) :=
  mkLoader (config l) b (closed l) (closeChan l) (certificate l)
           (certModTime l) (keyModTime l).
Definition set_closed (b : bool) (l : TlsCertificateLoader) :=
  mkLoader (config l) (mu l) b (closeChan l) (certificate l)
           (certModTime l) (keyModTime l).
Definition set_closeChan (c : option Chan) (l : TlsCertificateLoader) :=
  mkLoader (config l) (mu l) (closed l) c (certificate l)
           (certModTime l) (keyModTime l).
Definition set_certificate (p : ptr) (l : TlsCertificateLoader) :=
  mkLoader (config l) (mu l) (closed l) (closeChan l) p
           (certModTime l) (keyModTime l).
Definition set_certModTime (t : Time) (l : TlsCertificateLoader) :=
  mkLoader (config l) (mu l) (closed l) (closeChan l) (certificate l)
           t (keyModTime l).
Definition set_keyModTime (t : Time) (l : TlsCertificateLoader) :=
  mkLoader (config l) (mu l) (closed l) (closeChan l) (certificate l)
           (certModTime l) t.

(* ================================================================== *)
(** ** The outside world, events and machine state *)

(** What the file system answers at each tick of the logical clock. *)
Record World : Type := mkWorld {
  os_Stat_at : nat -> string -> error + FileInfo;
  LoadX509KeyPair_at : nat -> string -> string -> error + Certificate
}.

(** The mutable fields of the loader whose accesses are recorded.  The
    configuration and [closeChan] are written before the loader is shared
    and only read afterwards. *)
Inductive field : Type :=
| f_closed | f_certificate | f_certModTime | f_keyModTime.

Inductive event : Type :=
| EvStat (name : string) (r : error + FileInfo)
| EvLoadX509KeyPair (certFile keyFile : string) (r : error + Certificate)
| EvLock
| EvUnlock
| EvRead (f : field)
| EvWrite (f : field)
| EvOnError (f : func) (err : error)
| EvOnReload (f : func)
| EvSend
| EvRecv
| EvGo.

(** Everything the process owns besides the loader: the oracle and its
    clock, the cells that hold parsed certificates, and the number of
    goroutines started by the package. *)
Record Sys : Type := mkSys {
  outside : World;
  tick : nat;
  heap : list Certificate;
  goroutines : nat
}.

(** A loader together with the process it lives in. *)
Record Machine : Type := mkMachine {
  self : TlsCertificateLoader;
  sys : Sys
}.

Definition on_self (f : TlsCertificateLoader -> TlsCertificateLoader)
  (m : Machine) : Machine := mkMachine (f (self m)) (sys m).

(** The cell a pointer refers to. *)
Definition deref (h : list Certificate) (p : ptr) : option Certificate :=
  match p with
  | None => None
  | Some a => nth_error h a
  end.

(* ================================================================== *)
(** ** Computations: state, recorded events, and three ways to end *)

Inductive outcome (A : Type) : Type :=
| Done (a : A)
| Panic (msg : string)
| Blocked.
Arguments Panic {A} msg.
Arguments Blocked {A}.

Definition M (St A : Type) : Type := St -> outcome A * St * list event.

Definition ret {St A} (a : A) : M St A := fun s => (Done a, s, []).

Definition bind {St A B} (c : M St A) (k : A -> M St B) : M St B :=
  fun s =>
    match c s with
    | (Done a, s1, e1) =>
        match k a s1 with
        | (r, s2, e2) => (r, s2, e1 ++ e2)
        end
    | (Panic msg, s1, e1) => (Panic msg, s1, e1)
    | (Blocked, s1, e1) => (Blocked, s1, e1)
    end.

Declare Scope go_scope.
Delimit Scope go_scope with go.
Notation "x <- c ;; k" := (bind c (fun x => k))
  (at level 61, c at next level, right associativity) : go_scope.
Notation "c ;; k" := (bind c (fun _ => k))
  (at level 61, right associativity) : go_scope.
Open Scope go_scope.

Definition outcome_of {St A} (r : outcome A * St * list event) := fst (fst r).
Definition state_of {St A} (r : outcome A * St * list event) := snd (fst r).
Definition events_of {St A} (r : outcome A * St * list event) := snd r.

(** A computation on the process, run on the machine of a loader. *)
Definition liftSys {A} (c : M Sys A) : M Machine A :=
  fun m =>
    match c (sys m) with
    | (r, s1, e) => (r, mkMachine (self m) s1, e)
    end.

Definition panic {St A} (msg : string) : M St A := fun s => (Panic msg, s, []).

(* ------------------------------------------------------------------ *)
(** *** Primitives of the standard library and the runtime *)

(** [os.Stat(name)] *)
Definition os_Stat (name : string) : M Sys (error + FileInfo) :=
  fun s =>
    let r := os_Stat_at (outside s) (tick s) name in
    (Done r, mkSys (outside s) (S (tick s)) (heap s) (goroutines s),
     [EvStat name r]).

(** [tls.LoadX509KeyPair(certFile, keyFile)] *)
Definition tls_LoadX509KeyPair (certFile keyFile : string)
  : M Sys (error + Certificate) :=
  fun s =>
    let r := LoadX509KeyPair_at (outside s) (tick s) certFile keyFile in
    (Done r, mkSys (outside s) (S (tick s)) (heap s) (goroutines s),
     [EvLoadX509KeyPair certFile keyFile r]).

(** [&certificate]: the local variable escapes, so it lives in a fresh
    cell of the heap; its address is never nil. *)
Definition address_of (c : Certificate) : M Sys ptr :=
  fun s =>
    (Done (Some (length (heap s))),
     mkSys (outside s) (tick s) (heap s ++ [c]) (goroutines s), []).

(** [go loader.run()] *)
Definition go_run : M Sys unit :=
  fun s =>
    (Done tt, mkSys (outside s) (tick s) (heap s) (S (goroutines s)), [EvGo]).

(** [loader.mu.Lock()]: waits for ever when the mutex is already held and
    nobody else runs. *)
Definition mu_Lock : M Machine unit :=
  fun m =>
    if mu (self m) then (Blocked, m, [])
    else (Done tt, on_self (set_mu true) m, [EvLock]).

(** [loader.mu.Unlock()]: unlocking a free mutex is a fatal error. *)
Definition mu_Unlock : M Machine unit :=
  fun m =>
    if mu (self m) then (Done tt, on_self (set_mu false) m, [EvUnlock])
    else (Panic "sync: unlock of unlocked mutex"%string, m, []).

(** Reading and writing a recorded field of [loader]. *)
Definition rd {A} (f : field) (proj : TlsCertificateLoader -> A)
  : M Machine A :=
  fun m => (Done (proj (self m)), m, [EvRead f]).

Definition wr (f : field)
  (upd : TlsCertificateLoader -> TlsCertificateLoader) : M Machine unit :=
  fun m => (Done tt, on_self upd m, [EvWrite f]).

(** Reading [loader.config] and [loader.closeChan]. *)
Definition get_config : M Machine TlsCertificateLoaderConfig :=
  fun m => (Done (config (self m)), m, []).

Definition get_closeChan : M Machine (option Chan) :=
  fun m => (Done (closeChan (self m)), m, []).

(** Calling a func value: a nil func panics.  The body of a non-nil
    callback is user code outside the package; the call is recorded with
    its argument, and the embedding covers the callbacks that return and
    leave the loader alone. *)
Definition call_OnError (f : option func) (err : error) : M Machine unit :=
  match f with
  | None => panic "runtime error: invalid memory address or nil pointer dereference"%string
  | Some g => fun m => (Done tt, m, [EvOnError g err])
  end.

Definition call_OnReload (f : option func) : M Machine unit :=
  match f with
  | None => panic "runtime error: invalid memory address or nil pointer dereference"%string
  | Some g => fun m => (Done tt, m, [EvOnReload g])
  end.

Definition is_nil {A} (o : option A) : bool :=
  match o with
  | None => true
  | Some _ => false
  end.

(** [loader.closeChan <- struct{}{}]: a send on a nil channel blocks for
    ever; a send on a full buffer waits for a receiver. *)
Definition closeChan_send : M Machine unit :=
  fun m =>
    match closeChan (self m) with
    | None => (Blocked, m, [])
    | Some c =>
        if chanLen c <? chanCap c
        then (Done tt,
              on_self (set_closeChan (Some (mkChan (chanCap c) (S (chanLen c))))) m,
              [EvSend])
        else (Blocked, m, [])
    end.

(** [<-loader.closeChan]: a receive waits until an item is queued. *)
Definition closeChan_recv : M Machine unit :=
  fun m =>
    match closeChan (self m) with
    | None => (Blocked, m, [])
    | Some c =>
        match chanLen c with
        | O => (Blocked, m, [])
        | S n => (Done tt,
                  on_self (set_closeChan (Some (mkChan (chanCap c) n))) m,
                  [EvRecv])
        end
    end.

(* ================================================================== *)
(** ** loader.go *)

(** [func NewTlsCertificateLoader(config)]: a pointer to the new loader
    (or nil) and an error (or nil). *)
Definition NewTlsCertificateLoader (config : TlsCertificateLoaderConfig)
  : M Sys (option TlsCertificateLoader * option error) :=
  r <- os_Stat (CertificatePath config) ;;
  match r with
  | inl err => ret (None, Some err)
  | inr statCert =>
      let certModTime := ModTime statCert in
      r <- os_Stat (KeyPath config) ;;
      match r with
      | inl err => ret (None, Some err)
      | inr statKey =>
          let keyModTime := ModTime statKey in
          r <- tls_LoadX509KeyPair (CertificatePath config) (KeyPath config) ;;
          match r with
          | inl err => ret (None, Some err)
          | inr certificate =>
              p <- address_of certificate ;;
              let loader :=
                mkLoader config false false None p certModTime keyModTime in
              if (CheckReloadPeriod config >? 0)%Z then
                let loader := set_closeChan (Some (mkChan 1 0)) loader in
                go_run ;;
                ret (Some loader, None)
              else
                ret (Some loader, None)
          end
      end
  end.

(** [func (loader *TlsCertificateLoader) IsClosed() bool] *)
Definition IsClosed : M Machine bool :=
  mu_Lock ;;
  b <- rd f_closed closed ;;
  mu_Unlock ;;
  ret b.

(** [func (loader *TlsCertificateLoader) Close()] *)
Definition Close : M Machine unit :=
  mu_Lock ;;
  wasClosed <- rd f_closed closed ;;
  wr f_closed (set_closed true) ;;
  mu_Unlock ;;
  ch <- get_closeChan ;;
  if negb wasClosed && negb (is_nil ch) then closeChan_send else ret tt.

(** [if loader.config.OnError != nil { loader.config.OnError(err) }] *)
Definition report_error (cfg : TlsCertificateLoaderConfig) (err : error)
  : M Machine unit :=
  if negb (is_nil (OnError cfg)) then call_OnError (OnError cfg) err
  else ret tt.

(** [func (loader *TlsCertificateLoader) check()] *)
Definition check : M Machine unit :=
  cfg <- get_config ;;
  r <- liftSys (os_Stat (CertificatePath cfg)) ;;
  match r with
  | inl err => report_error cfg err
  | inr statCert =>
      let certModTime' := ModTime statCert in
      r <- liftSys (os_Stat (KeyPath cfg)) ;;
      match r with
      | inl err => report_error cfg err
      | inr statKey =>
          let keyModTime' := ModTime statKey in
          k0 <- rd f_keyModTime keyModTime ;;
          unchanged <-
            (if (UnixMilli keyModTime' =? UnixMilli k0)%Z then
               c0 <- rd f_certModTime certModTime ;;
               ret (UnixMilli certModTime' =? UnixMilli c0)%Z
             else ret false) ;;
          if unchanged : bool then ret tt
          else
            r <- liftSys (tls_LoadX509KeyPair (CertificatePath cfg) (KeyPath cfg)) ;;
            match r with
            | inl err => report_error cfg err
            | inr certificate' =>
                wr f_certModTime (set_certModTime certModTime') ;;
                wr f_keyModTime (set_keyModTime keyModTime') ;;
                mu_Lock ;;
                p <- liftSys (address_of certificate') ;;
                wr f_certificate (set_certificate p) ;;
                mu_Unlock ;;
                if negb (is_nil (OnReload cfg)) then call_OnReload (OnReload cfg)
                else ret tt
            end
      end
  end.

(** The case [select] picks in one iteration of [run]. *)
Inductive select_case : Type :=
| case_timer
| case_closeChan.

(** [func (loader *TlsCertificateLoader) run()], along the cases its
    [select] takes: a timer tick runs one check cycle and loops, a receive
    from [closeChan] returns.  When the list ends the goroutine is still
    waiting in [select]. *)
Fixpoint run (choices : list select_case) : M Machine unit :=
  match choices with
  | [] => ret tt
  | case_timer :: rest => check ;; run rest
  | case_closeChan :: _ => closeChan_recv
  end.

(** [func (loader *TlsCertificateLoader) GetCertificate(_ *tls.ClientHelloInfo)]:
    a pointer to the certificate and an error (or nil). *)
Definition GetCertificate (_ : option ClientHelloInfo)
  : M Machine (ptr * option error) :=
  mu_Lock ;;
  c <- rd f_certificate certificate ;;
  mu_Unlock ;;
  ret (c, None).

(* ================================================================== *)
(** ** Callers: sequences of operations on one loader *)

(** What the rest of the program can do with a loader: call one of its
    methods, or (the goroutine started by the constructor) consume the
    signal queued in [closeChan]. *)
Inductive op : Type :=
| op_check
| op_Close
| op_IsClosed
| op_GetCertificate (hello : option ClientHelloInfo)
| op_recv.

Definition exec (o : op) : M Machine unit :=
  match o with
  | op_check => check
  | op_Close => Close
  | op_IsClosed => IsClosed ;; ret tt
  | op_GetCertificate hello => GetCertificate hello ;; ret tt
  | op_recv => closeChan_recv
  end.

Fixpoint exec_all (ops : list op) : M Machine unit :=
  match ops with
  | [] => ret tt
  | o :: rest => exec o ;; exec_all rest
  end.

Definition is_Close (o : op) : bool :=
  match o with
  | op_Close => true
  | _ => false
  end.

(** The machines a program can get to: a successful construction followed
    by operations that return. *)
Inductive reachable : Machine -> Prop :=
| reachable_new config s0 loader s1 evs :
    NewTlsCertificateLoader config s0 = (Done (Some loader, None), s1, evs) ->
    reachable (mkMachine loader s1)
| reachable_step m o m' evs :
    reachable m ->
    exec o m = (Done tt, m', evs) ->
    reachable m'.

(** The operations [run] performs along the cases its [select] takes. *)
Fixpoint run_ops (choices : list select_case) : list op :=
  match choices with
  | [] => []
  | case_timer :: rest => op_check :: run_ops rest
  | case_closeChan :: _ => [op_recv]
  end.

(* ================================================================== *)
(** ** Reading the recorded events *)

(** The error an I/O call returned, if the event is a failed I/O call. *)
Definition io_error (e : event) : option error :=
  match e with
  | EvStat _ (inl err) => Some err
  | EvLoadX509KeyPair _ _ (inl err) => Some err
  | _ => None
  end.

(** The first error returned by an I/O call among the events. *)
Fixpoint first_io_error (evs : list event) : option error :=
  match evs with
  | [] => None
  | e :: rest =>
      match io_error e with
      | Some err => Some err
      | None => first_io_error rest
      end
  end.

(** The calls of [OnError], in order, each with its argument. *)
Fixpoint on_error_calls (evs : list event) : list (func * error) :=
  match evs with
  | [] => []
  | EvOnError f err :: rest => (f, err) :: on_error_calls rest
  | _ :: rest => on_error_calls rest
  end.

(** The calls of [OnReload], in order. *)
Fixpoint on_reload_calls (evs : list event) : list func :=
  match evs with
  | [] => []
  | EvOnReload f :: rest => f :: on_reload_calls rest
  | _ :: rest => on_reload_calls rest
  end.

(** The number of items sent on [closeChan]. *)
Fixpoint count_sends (evs : list event) : nat :=
  match evs with
  | [] => 0
  | EvSend :: rest => S (count_sends rest)
  | _ :: rest => count_sends rest
  end.

(** The number of goroutines started. *)
Fixpoint count_go (evs : list event) : nat :=
  match evs with
  | [] => 0
  | EvGo :: rest => S (count_go rest)
  | _ :: rest => count_go rest
  end.

(** The key-pair loads attempted, successful or not. *)
Fixpoint load_attempts (evs : list event) : nat :=
  match evs with
  | [] => 0
  | EvLoadX509KeyPair _ _ _ :: rest => S (load_attempts rest)
  | _ :: rest => load_attempts rest
  end.

(** File stats, file reads and parsing. *)
Definition is_io (e : event) : bool :=
  match e with
  | EvStat _ _ | EvLoadX509KeyPair _ _ _ => true
  | _ => false
  end.

(** What is done while the mutex is held: the events between each
    [EvLock] and the [EvUnlock] that follows it.  [cur] is the section
    under way, if the mutex is held. *)
Fixpoint sections (cur : option (list event)) (evs : list event)
  : list (list event) :=
  match evs with
  | [] =>
      match cur with
      | Some c => [c]
      | None => []
      end
  | EvLock :: rest => sections (Some []) rest
  | EvUnlock :: rest =>
      match cur with
      | Some c => c :: sections None rest
      | None => sections None rest
      end
  | e :: rest =>
      match cur with
      | Some c => sections (Some (c ++ [e])) rest
      | None => sections None rest
      end
  end.

Definition critical_sections (evs : list event) : list (list event) :=
  sections None evs.

(** The events [OnError] and [OnReload] add to a cycle. *)
Definition notify_error (cfg : TlsCertificateLoaderConfig) (err : error)
  : list event :=
  match OnError cfg with
  | Some f => [EvOnError f err]
  | None => []
  end.

Definition notify_reload (cfg : TlsCertificateLoaderConfig) : list event :=
  match OnReload cfg with
  | Some f => [EvOnReload f]
  | None => []
  end.

(** The clock moved on by [n] I/O calls. *)
Definition later (n : nat) (s : Sys) : Sys :=
  mkSys (outside s) (n + tick s) (heap s) (goroutines s).

(** The answers the oracle gives to the three I/O calls of a cycle that
    starts on machine [m]. *)
Definition seen_cert (m : Machine) : error + FileInfo :=
  os_Stat_at (outside (sys m)) (tick (sys m))
             (CertificatePath (config (self m))).

Definition seen_key (m : Machine) : error + FileInfo :=
  os_Stat_at (outside (sys m)) (S (tick (sys m)))
             (KeyPath (config (self m))).

Definition seen_pair (m : Machine) : error + Certificate :=
  LoadX509KeyPair_at (outside (sys m)) (S (S (tick (sys m))))
                     (CertificatePath (config (self m)))
                     (KeyPath (config (self m))).

(** The certificate [c] was returned by a load of the loader's two files
    that has already taken place. *)
Definition parsed_before (m : Machine) (c : Certificate) : Prop :=
  exists t,
    t < tick (sys m) /\
    LoadX509KeyPair_at (outside (sys m)) t
                       (CertificatePath (config (self m)))
                       (KeyPath (config (self m))) = inr c.

(** The loader publishes a non-nil pointer to a parsed key pair. *)
Definition holds_key_pair (m : Machine) : Prop :=
  exists a c,
    certificate (self m) = Some a /\
    nth_error (heap (sys m)) a = Some c /\
    parsed_before m c.

(** The channel is nil, or has room for the one signal [Close] sends. *)
Definition chan_ok (l : TlsCertificateLoader) : Prop :=
  match closeChan l with
  | None => True
  | Some c => chanCap c = 1 /\ (closed l = false -> chanLen c = 0)
  end.

(** What holds of a loader between two operations. *)
Definition loader_inv (m : Machine) : Prop :=
  mu (self m) = false /\ holds_key_pair m /\ chan_ok (self m).

(** The comparison of line 139: both files' modification times, in
    milliseconds, equal the stored ones. *)
Definition unchanged (l : TlsCertificateLoader) (statCert statKey : FileInfo)
  : bool :=
  (UnixMilli (ModTime statKey) =? UnixMilli (keyModTime l))%Z
  && (UnixMilli (ModTime statCert) =? UnixMilli (certModTime l))%Z.

(** The field reads of that comparison; [&&] reads [certModTime] only when
    the key file's time matched. *)
Definition compare_events (l : TlsCertificateLoader) (statKey : FileInfo)
  : list event :=
  EvRead f_keyModTime
    :: (if (UnixMilli (ModTime statKey) =? UnixMilli (keyModTime l))%Z
        then [EvRead f_certModTime] else []).

(** The two stats of a cycle, both successful, and the comparison. *)
Definition probe_events (l : TlsCertificateLoader) (statCert statKey : FileInfo)
  : list event :=
  EvStat (CertificatePath (config l)) (inr statCert)
    :: EvStat (KeyPath (config l)) (inr statKey)
    :: compare_events l statKey.

(** The loader after a successful reload. *)
Definition reloaded (l : TlsCertificateLoader) (statCert statKey : FileInfo)
  (p : ptr) : TlsCertificateLoader :=
  mkLoader (config l) false (closed l) (closeChan l) p
           (ModTime statCert) (ModTime statKey).

(** A cycle fails with [err]: the stat of the certificate file, the stat
    of the key file, or the load that follows a detected change returns
    that error. *)
Definition cycle_fails (m : Machine) (err : error) : Prop :=
  seen_cert m = inl err \/
  (exists statCert, seen_cert m = inr statCert /\ seen_key m = inl err) \/
  (exists statCert statKey,
      seen_cert m = inr statCert /\ seen_key m = inr statKey /\
      unchanged (self m) statCert statKey = false /\
      seen_pair m = inl err).

(** A cycle sees the two files, detects a change and loads [pair]. *)
Definition cycle_reloads (m : Machine) (statCert statKey : FileInfo)
  (pair : Certificate) : Prop :=
  seen_cert m = inr statCert /\ seen_key m = inr statKey /\
  unchanged (self m) statCert statKey = false /\
  seen_pair m = inr pair.

(** The same configuration with both callbacks nil, and a machine whose
    loader is configured so. *)
Definition mute (cfg : TlsCertificateLoaderConfig)
  : TlsCertificateLoaderConfig :=
  mkConfig (CertificatePath cfg) (KeyPath cfg) (CheckReloadPeriod cfg)
           None None.

Definition muted (m : Machine) : Machine :=
  on_self (fun l => mkLoader (mute (config l)) (mu l) (closed l)
                             (closeChan l) (certificate l)
                             (certModTime l) (keyModTime l)) m.

Definition is_callback (e : event) : bool :=
  match e with
  | EvOnError _ _ | EvOnReload _ => true
  | _ => false
  end.

(** The events that are not calls of [OnError] or [OnReload]. *)
Definition without_callbacks (evs : list event) : list event :=
  filter (fun e => negb (is_callback e)) evs.

(** The answers the oracle gives to the three I/O calls of a construction
    that starts on [s]. *)
Definition first_stat (cfg : TlsCertificateLoaderConfig) (s : Sys)
  : error + FileInfo :=
  os_Stat_at (outside s) (tick s) (CertificatePath cfg).

Definition second_stat (cfg : TlsCertificateLoaderConfig) (s : Sys)
  : error + FileInfo :=
  os_Stat_at (outside s) (S (tick s)) (KeyPath cfg).

Definition first_load (cfg : TlsCertificateLoaderConfig) (s : Sys)
  : error + Certificate :=
  LoadX509KeyPair_at (outside s) (S (S (tick s)))
                     (CertificatePath cfg) (KeyPath cfg).

(** The construction fails with [err]: one of the two stats or the initial
    load returns that error. *)
Definition construction_fails (cfg : TlsCertificateLoaderConfig) (s : Sys)
  (err : error) : Prop :=
  first_stat cfg s = inl err \/
  (exists statCert, first_stat cfg s = inr statCert /\
                    second_stat cfg s = inl err) \/
  (exists statCert statKey,
      first_stat cfg s = inr statCert /\ second_stat cfg s = inr statKey /\
      first_load cfg s = inl err).

(** The construction sees both files and loads [pair]. *)
Definition construction_loads (cfg : TlsCertificateLoaderConfig) (s : Sys)
  (statCert statKey : FileInfo) (pair : Certificate) : Prop :=
  first_stat cfg s = inr statCert /\ second_stat cfg s = inr statKey /\
  first_load cfg s = inr pair.

(** The loader a successful construction returns. *)
Definition fresh_loader (cfg : TlsCertificateLoaderConfig) (s : Sys)
  (statCert statKey : FileInfo) : TlsCertificateLoader :=
  mkLoader cfg false false
           (if (CheckReloadPeriod cfg >? 0)%Z then Some (mkChan 1 0) else None)
           (Some (length (heap s))) (ModTime statCert) (ModTime statKey).

(* ================================================================== *)
(** ** Threads sharing the mutex

    Each thread has a list of events still to perform.  A thread performs
    its next event unless that event is [EvLock] and the mutex is held: then
    it waits.  Thread 0 runs a check cycle, the others are readers. *)

Record Threads : Type := mkThreads {
  holder : option nat;
  pool : list (list event)
}.

Fixpoint set_nth {A} (n : nat) (x : A) (l : list A) : list A :=
  match l, n with
  | [], _ => []
  | _ :: rest, O => x :: rest
  | y :: rest, S k => y :: set_nth k x rest
  end.

Definition holds (t : nat) (h : option nat) : bool :=
  match h with
  | Some t' => Nat.eqb t t'
  | None => false
  end.

(** Thread [t] performs its next event; [None] when it cannot move. *)
Definition step_thread (t : nat) (st : Threads) : option Threads :=
  match nth_error (pool st) t with
  | None | Some [] => None
  | Some (EvLock :: rest) =>
      match holder st with
      | None => Some (mkThreads (Some t) (set_nth t rest (pool st)))
      | Some _ => None
      end
  | Some (EvUnlock :: rest) =>
      if holds t (holder st)
      then Some (mkThreads None (set_nth t rest (pool st)))
      else None
  | Some (_ :: rest) => Some (mkThreads (holder st) (set_nth t rest (pool st)))
  end.

(** The threads after the scheduler has picked [picks], one after another. *)
Fixpoint run_schedule (picks : list nat) (st : Threads) : option Threads :=
  match picks with
  | [] => Some st
  | t :: rest =>
      match step_thread t st with
      | Some st' => run_schedule rest st'
      | None => None
      end
  end.

(** Thread [t] waits for the mutex, which thread [owner] holds. *)
Definition waits_for (t owner : nat) (st : Threads) : Prop :=
  t <> owner /\
  holder st = Some owner /\
  exists rest, nth_error (pool st) t = Some (EvLock :: rest).

Definition is_access (e : event) : bool :=
  match e with
  | EvRead _ | EvWrite _ => true
  | _ => false
  end.

(** A thread keeps the mutex for at most [n] field accesses and nothing
    else.  [held] is [Some k] when the thread holds the mutex and may still
    make [k] accesses before it unlocks. *)
Fixpoint scoped (n : nat) (held : option nat) (evs : list event) : bool :=
  match evs with
  | [] => is_nil held
  | EvLock :: rest => is_nil held && scoped n (Some n) rest
  | EvUnlock :: rest => negb (is_nil held) && scoped n None rest
  | e :: rest =>
      match held with
      | None => scoped n None rest
      | Some k =>
          match k with
          | O => false
          | S k' => is_access e && scoped n (Some k') rest
          end
      end
  end.

(** One check cycle on thread 0 and one [GetCertificate] call per reader,
    nobody holding the mutex. *)
Definition cycle_and_readers (m : Machine)
  (hellos : list (option ClientHelloInfo)) : Threads :=
  mkThreads None
    (events_of (check m)
     :: map (fun hello => events_of (GetCertificate hello m)) hellos).

(** What the scheduler keeps true of thread [t] with [todo] left: while it
    holds the mutex it has at most [n] field accesses to go before it
    unlocks, and otherwise it takes the mutex only for that long. *)
Definition thread_ok (n : nat) (h : option nat) (t : nat) (todo : list event)
  : Prop :=
  if holds t h
  then exists k, k <= n /\ scoped n (Some k) todo = true
  else scoped n None todo = true.

Definition pool_ok (n : nat) (st : Threads) : Prop :=
  forall t todo, nth_error (pool st) t = Some todo ->
                 thread_ok n (holder st) t todo.

(* ================================================================== *)
(** ** Further readings of machines and events *)

(** The number of items received from [closeChan]. *)
Fixpoint count_recvs (evs : list event) : nat :=
  match evs with
  | [] => 0
  | EvRecv :: rest => S (count_recvs rest)
  | _ :: rest => count_recvs rest
  end.

(** The key-pair loads that returned a certificate. *)
Fixpoint successful_loads (evs : list event) : nat :=
  match evs with
  | [] => 0
  | EvLoadX509KeyPair _ _ (inr _) :: rest => S (successful_loads rest)
  | _ :: rest => successful_loads rest
  end.

(** The items queued in the loader's channel; none in a nil channel. *)
Definition queued (l : TlsCertificateLoader) : nat :=
  match closeChan l with
  | None => 0
  | Some c => chanLen c
  end.

(** From now on both stats succeed whenever they are made, and report
    times that fall in the milliseconds the loader has stored. *)
Definition steady (m : Machine) : Prop :=
  forall t, tick (sys m) <= t ->
    (exists statCert,
        os_Stat_at (outside (sys m)) t (CertificatePath (config (self m)))
          = inr statCert /\
        UnixMilli (ModTime statCert) = UnixMilli (certModTime (self m))) /\
    (exists statKey,
        os_Stat_at (outside (sys m)) t (KeyPath (config (self m)))
          = inr statKey /\
        UnixMilli (ModTime statKey) = UnixMilli (keyModTime (self m))).

(** An event that may take time outside the process or the package: I/O,
    a callback, a channel operation, the start of a goroutine. *)
Definition is_slow (e : event) : bool :=
  match e with
  | EvStat _ _ | EvLoadX509KeyPair _ _ _ | EvOnError _ _ | EvOnReload _
  | EvSend | EvRecv | EvGo => true
  | _ => false
  end.

(** One thread per call, each running one operation from the state given
    with it, nobody holding the mutex. *)
Definition method_threads (calls : list (op * Machine)) : Threads :=
  mkThreads None (map (fun c => events_of (exec (fst c) (snd c))) calls).

(* ================================================================== *)
(** ** Sample worlds *)

Definition early : Time := mkTime 1700000000 250000000.
Definition late : Time := mkTime 1700000075 0.
Definition pair_one : Certificate := mkCertificate ["leaf-1"; "ca"]%string "key-1".
Definition pair_two : Certificate := mkCertificate ["leaf-2"; "ca"]%string "key-2".

(** Files written once, before anything runs. *)
Definition still_world : World :=
  mkWorld (fun _ _ => inr (mkFileInfo early)) (fun _ _ _ => inr pair_one).

(** Both files replaced by a new valid pair after the third I/O call. *)
Definition rotating_world : World :=
  mkWorld
    (fun t _ => if t <? 3 then inr (mkFileInfo early) else inr (mkFileInfo late))
    (fun t _ _ => if t <? 3 then inr pair_one else inr pair_two).

(** The certificate file removed after the third I/O call. *)
Definition vanishing_world : World :=
  mkWorld
    (fun t name =>
       if (t <? 3) || negb (String.eqb name "cert.pem")
       then inr (mkFileInfo early)
       else inl "stat cert.pem: no such file or directory"%string)
    (fun _ _ _ => inr pair_one).

(** Both files overwritten with garbage after the third I/O call. *)
Definition corrupt_world : World :=
  mkWorld
    (fun t _ => if t <? 3 then inr (mkFileInfo early) else inr (mkFileInfo late))
    (fun t _ _ =>
       if t <? 3 then inr pair_one
       else inl "tls: failed to find any PEM data in certificate input"%string).

(** Both files overwritten with garbage after the third I/O call, and
    with a new valid pair, of the same age, after the sixth. *)
Definition recovering_world : World :=
  mkWorld
    (fun t _ => if t <? 3 then inr (mkFileInfo early) else inr (mkFileInfo late))
    (fun t _ _ =>
       if t <? 3 then inr pair_one
       else if t <? 6
            then inl "tls: failed to find any PEM data in certificate input"
            else inr pair_two).

(** Both files rewritten after the third I/O call, less than a millisecond
    after they were first written. *)
Definition touched_world : World :=
  mkWorld
    (fun t _ => if t <? 3 then inr (mkFileInfo early)
                else inr (mkFileInfo (mkTime 1700000000 250400000)))
    (fun t _ _ => if t <? 3 then inr pair_one else inr pair_two).

(** Both files removed after the third I/O call. *)
Definition empty_then_nothing : World :=
  mkWorld
    (fun t _ => if t <? 3 then inr (mkFileInfo early)
                else inl "no such file or directory")
    (fun t _ _ => if t <? 3 then inr pair_one
                  else inl "no such file or directory").

(** Both files given, after the third I/O call, a modification time 2^61
    seconds later, and a new valid pair. *)
Definition far_future : Time := mkTime 2305843010913693952 250000000.

Definition far_world : World :=
  mkWorld
    (fun t _ => if t <? 3 then inr (mkFileInfo early)
                else inr (mkFileInfo far_future))
    (fun t _ _ => if t <? 3 then inr pair_one else inr pair_two).

(** Both files replaced after the third I/O call, and once more after the
    sixth. *)
Definition latest : Time := mkTime 1700000150 500000.

Definition twice_rotating_world : World :=
  mkWorld
    (fun t _ => if t <? 3 then inr (mkFileInfo early)
                else if t <? 6 then inr (mkFileInfo late)
                     else inr (mkFileInfo latest))
    (fun t _ _ => if t <? 3 then inr pair_one
                  else if t <? 6 then inr pair_two
                       else inr (mkCertificate ["leaf-3"; "ca"] "key-3")).

(** No files at all. *)
Definition empty_world : World :=
  mkWorld (fun _ _ => inl "no such file or directory"%string)
          (fun _ _ _ => inl "no such file or directory"%string).

Definition boot (w : World) : Sys := mkSys w 0 [] 0.

Definition polling_config : TlsCertificateLoaderConfig :=
  mkConfig "cert.pem" "key.pem" 5000000000 (Some 7) (Some 8).

Definition single_shot_config : TlsCertificateLoaderConfig :=
  mkConfig "cert.pem" "key.pem" 0 (Some 7) (Some 8).

Definition silent_config : TlsCertificateLoaderConfig :=
  mkConfig "cert.pem" "key.pem" 0 None None.

Definition quiet_polling_config : TlsCertificateLoaderConfig :=
  mkConfig "cert.pem" "key.pem" 5000000000 None None.

(** The machine a successful construction leaves, for the samples. *)
Definition built (cfg : TlsCertificateLoaderConfig) (w : World) : Machine :=
  match NewTlsCertificateLoader cfg (boot w) with
  | (Done (Some loader, _), s, _) => mkMachine loader s
  | (_, s, _) =>
      mkMachine (mkLoader cfg false false None None early early) s
  end.

(* ================================================================== *)
(** * Properties *)

(** ** Time *)

Lemma wrap64_small z : (- 2 ^ 63 <= z < 2 ^ 63)%Z -> wrap64 z = z.
Proof.
  intros H. unfold wrap64.
  rewrite Z.mod_small by lia. lia.
Qed.


(** ** The check cycle, path by path *)

Lemma report_error_eq cfg err m :
  report_error cfg err m = (Done tt, m, notify_error cfg err).
Proof.
  unfold report_error, notify_error, call_OnError.
  destruct (OnError cfg); reflexivity.
Qed.

(** The stat of the certificate file fails. *)
Lemma check_stat_cert_fails m err :
  seen_cert m = inl err ->
  check m =
    (Done tt, mkMachine (self m) (later 1 (sys m)),
     EvStat (CertificatePath (config (self m))) (inl err)
       :: notify_error (config (self m)) err).
Proof.
  unfold seen_cert. intros H.
  unfold check, bind, get_config, liftSys, os_Stat. cbn.
  rewrite H. rewrite report_error_eq. reflexivity.
Qed.

(** The stat of the key file fails. *)
Lemma check_stat_key_fails m statCert err :
  seen_cert m = inr statCert ->
  seen_key m = inl err ->
  check m =
    (Done tt, mkMachine (self m) (later 2 (sys m)),
     EvStat (CertificatePath (config (self m))) (inr statCert)
       :: EvStat (KeyPath (config (self m))) (inl err)
       :: notify_error (config (self m)) err).
Proof.
  unfold seen_cert, seen_key. intros H1 H2.
  unfold check, bind, get_config, liftSys, os_Stat. cbn.
  rewrite H1. cbn. rewrite H2. rewrite report_error_eq. reflexivity.
Qed.

(** Both stats succeed and nothing changed. *)
Lemma check_unchanged m statCert statKey :
  seen_cert m = inr statCert ->
  seen_key m = inr statKey ->
  unchanged (self m) statCert statKey = true ->
  check m =
    (Done tt, mkMachine (self m) (later 2 (sys m)),
     probe_events (self m) statCert statKey).
Proof.
  unfold seen_cert, seen_key, unchanged, probe_events, compare_events.
  intros H1 H2 Hu. apply andb_prop in Hu. destruct Hu as [Hk Hc].
  unfold check, bind, get_config, liftSys, os_Stat, rd. cbn.
  rewrite H1. cbn. rewrite H2. cbn. rewrite Hk. cbn. rewrite Hc. cbn.
  reflexivity.
Qed.

(** A change is seen and the load fails. *)
Lemma check_load_fails m statCert statKey err :
  seen_cert m = inr statCert ->
  seen_key m = inr statKey ->
  unchanged (self m) statCert statKey = false ->
  seen_pair m = inl err ->
  check m =
    (Done tt, mkMachine (self m) (later 3 (sys m)),
     probe_events (self m) statCert statKey
       ++ EvLoadX509KeyPair (CertificatePath (config (self m)))
                            (KeyPath (config (self m))) (inl err)
       :: notify_error (config (self m)) err).
Proof.
  unfold seen_cert, seen_key, seen_pair, unchanged, probe_events, compare_events.
  intros H1 H2 Hu H3.
  unfold check, bind, get_config, liftSys, os_Stat, tls_LoadX509KeyPair, rd.
  cbn. rewrite H1. cbn. rewrite H2. cbn.
  destruct (UnixMilli (ModTime statKey) =? UnixMilli (keyModTime (self m)))%Z;
    cbn in Hu |- *; [rewrite Hu; cbn|];
    rewrite H3; rewrite report_error_eq; reflexivity.
Qed.

(** A change is seen and the load succeeds. *)
Lemma check_reloads m statCert statKey pair :
  mu (self m) = false ->
  seen_cert m = inr statCert ->
  seen_key m = inr statKey ->
  unchanged (self m) statCert statKey = false ->
  seen_pair m = inr pair ->
  check m =
    (Done tt,
     mkMachine
       (reloaded (self m) statCert statKey (Some (length (heap (sys m)))))
       (mkSys (outside (sys m)) (3 + tick (sys m))
              (heap (sys m) ++ [pair]) (goroutines (sys m))),
     probe_events (self m) statCert statKey
       ++ [EvLoadX509KeyPair (CertificatePath (config (self m)))
                             (KeyPath (config (self m))) (inr pair);
           EvWrite f_certModTime; EvWrite f_keyModTime;
           EvLock; EvWrite f_certificate; EvUnlock]
       ++ notify_reload (config (self m))).
Proof.
  unfold seen_cert, seen_key, seen_pair, unchanged, probe_events, compare_events.
  intros Hmu H1 H2 Hu H3.
  unfold check, bind, get_config, liftSys, os_Stat, tls_LoadX509KeyPair, rd.
  cbn. rewrite H1. cbn. rewrite H2. cbn.
  unfold notify_reload, reloaded.
  destruct (UnixMilli (ModTime statKey) =? UnixMilli (keyModTime (self m)))%Z;
    cbn in Hu |- *; [rewrite Hu; cbn|];
    rewrite H3; unfold mu_Lock, mu_Unlock, wr, address_of; cbn;
    rewrite Hmu; cbn;
    destruct (OnReload (config (self m))); reflexivity.
Qed.

(** The same, when somebody else holds the mutex: the cycle waits at
    [Lock], the watermarks already written. *)
Lemma check_reload_waits m statCert statKey pair :
  mu (self m) = true ->
  seen_cert m = inr statCert ->
  seen_key m = inr statKey ->
  unchanged (self m) statCert statKey = false ->
  seen_pair m = inr pair ->
  check m =
    (Blocked,
     mkMachine
       (set_keyModTime (ModTime statKey)
          (set_certModTime (ModTime statCert) (self m)))
       (later 3 (sys m)),
     probe_events (self m) statCert statKey
       ++ [EvLoadX509KeyPair (CertificatePath (config (self m)))
                             (KeyPath (config (self m))) (inr pair);
           EvWrite f_certModTime; EvWrite f_keyModTime]).
Proof.
  unfold seen_cert, seen_key, seen_pair, unchanged, probe_events, compare_events.
  intros Hmu H1 H2 Hu H3.
  unfold check, bind, get_config, liftSys, os_Stat, tls_LoadX509KeyPair, rd.
  cbn. rewrite H1. cbn. rewrite H2. cbn.
  destruct (UnixMilli (ModTime statKey) =? UnixMilli (keyModTime (self m)))%Z;
    cbn in Hu |- *; [rewrite Hu; cbn|];
    rewrite H3; unfold mu_Lock, wr; cbn; rewrite Hmu; reflexivity.
Qed.

(** Splits a goal about [check m] along the paths of the cycle. *)
Ltac check_paths m :=
  let H1 := fresh "Hcert" in
  let H2 := fresh "Hkey" in
  let Hu := fresh "Hsame" in
  let H3 := fresh "Hpair" in
  let Hm := fresh "Hmutex" in
  let sc := fresh "statCert" in
  let sk := fresh "statKey" in
  let e := fresh "err" in
  let pr := fresh "pair" in
  destruct (seen_cert m) as [e | sc] eqn:H1;
  [ rewrite (check_stat_cert_fails m H1) in *
  | destruct (seen_key m) as [e | sk] eqn:H2;
    [ rewrite (check_stat_key_fails m H1 H2) in *
    | destruct (unchanged (self m) sc sk) eqn:Hu;
      [ rewrite (check_unchanged m H1 H2 Hu) in *
      | destruct (seen_pair m) as [e | pr] eqn:H3;
        [ rewrite (check_load_fails m H1 H2 Hu H3) in *
        | destruct (mu (self m)) eqn:Hm;
          [ rewrite (check_reload_waits m Hm H1 H2 Hu H3) in *
          | rewrite (check_reloads m Hm H1 H2 Hu H3) in * ] ] ] ] ].

(** ** Counting calls in lists of events *)

Lemma on_error_calls_app e1 e2 :
  on_error_calls (e1 ++ e2) = on_error_calls e1 ++ on_error_calls e2.
Proof.
  induction e1 as [|e e1 IH]; [reflexivity|].
  destruct e; cbn; rewrite IH; reflexivity.
Qed.

Lemma on_reload_calls_app e1 e2 :
  on_reload_calls (e1 ++ e2) = on_reload_calls e1 ++ on_reload_calls e2.
Proof.
  induction e1 as [|e e1 IH]; [reflexivity|].
  destruct e; cbn; rewrite IH; reflexivity.
Qed.

Lemma load_attempts_app e1 e2 :
  load_attempts (e1 ++ e2) = load_attempts e1 + load_attempts e2.
Proof.
  induction e1 as [|e e1 IH]; [reflexivity|].
  destruct e; cbn; rewrite IH; reflexivity.
Qed.

Lemma count_sends_app e1 e2 :
  count_sends (e1 ++ e2) = count_sends e1 + count_sends e2.
Proof.
  induction e1 as [|e e1 IH]; [reflexivity|].
  destruct e; cbn; rewrite IH; reflexivity.
Qed.

Section Counts.
Variables (l : TlsCertificateLoader) (statCert statKey : FileInfo).
Variables (cfg : TlsCertificateLoaderConfig) (err : error).

Lemma probe_no_on_error :
  on_error_calls (probe_events l statCert statKey) = [].
Proof.
  unfold probe_events, compare_events.
  destruct (UnixMilli (ModTime statKey) =? UnixMilli (keyModTime l))%Z;
    reflexivity.
Qed.

Lemma probe_no_on_reload :
  on_reload_calls (probe_events l statCert statKey) = [].
Proof.
  unfold probe_events, compare_events.
  destruct (UnixMilli (ModTime statKey) =? UnixMilli (keyModTime l))%Z;
    reflexivity.
Qed.

Lemma probe_no_load : load_attempts (probe_events l statCert statKey) = 0.
Proof.
  unfold probe_events, compare_events.
  destruct (UnixMilli (ModTime statKey) =? UnixMilli (keyModTime l))%Z;
    reflexivity.
Qed.

Lemma notify_error_on_error :
  on_error_calls (notify_error cfg err) =
    match OnError cfg with
    | Some f => [(f, err)]
    | None => []
    end.
Proof. unfold notify_error. destruct (OnError cfg); reflexivity. Qed.

Lemma notify_error_no_on_reload :
  on_reload_calls (notify_error cfg err) = [].
Proof. unfold notify_error. destruct (OnError cfg); reflexivity. Qed.

Lemma notify_error_no_load : load_attempts (notify_error cfg err) = 0.
Proof. unfold notify_error. destruct (OnError cfg); reflexivity. Qed.

Lemma notify_reload_on_reload :
  on_reload_calls (notify_reload cfg) =
    match OnReload cfg with
    | Some f => [f]
    | None => []
    end.
Proof. unfold notify_reload. destruct (OnReload cfg); reflexivity. Qed.

Lemma notify_reload_no_on_error :
  on_error_calls (notify_reload cfg) = [].
Proof. unfold notify_reload. destruct (OnReload cfg); reflexivity. Qed.

Lemma notify_reload_no_load : load_attempts (notify_reload cfg) = 0.
Proof. unfold notify_reload. destruct (OnReload cfg); reflexivity. Qed.
End Counts.

Create Rewrite HintDb counts.
#[export] Hint Rewrite
  on_error_calls_app on_reload_calls_app load_attempts_app
  probe_no_on_error probe_no_on_reload probe_no_load
  notify_error_on_error notify_error_no_on_reload notify_error_no_load
  notify_reload_on_reload notify_reload_no_on_error notify_reload_no_load
  : counts.

(** Brings the counts of a cycle's events into closed form. *)
Ltac count_events :=
  cbn [outcome_of state_of events_of fst snd self sys heap later];
  repeat (progress (autorewrite with counts;
                    cbn [on_error_calls on_reload_calls load_attempts
                         app plus])).

(** ** Failed cycles *)

(** C1: a cycle that fails (either stat or the load returns an error)
    ends normally, leaves the loader as it was (the published pointer and
    both stored modification times in particular) and the heap untouched,
    calls [OnError] once with that error when it is set, and does not call
    [OnReload]. *)
Theorem failed_cycle_keeps_state m err :
  cycle_fails m err ->
  outcome_of (check m) = Done tt /\
  self (state_of (check m)) = self m /\
  certificate (self (state_of (check m))) = certificate (self m) /\
  certModTime (self (state_of (check m))) = certModTime (self m) /\
  keyModTime (self (state_of (check m))) = keyModTime (self m) /\
  heap (sys (state_of (check m))) = heap (sys m) /\
  on_error_calls (events_of (check m)) =
    match OnError (config (self m)) with
    | Some f => [(f, err)]
    | None => []
    end /\
  on_reload_calls (events_of (check m)) = [].
Proof.
  intros [H | [(sc & H1 & H2) | (sc & sk & H1 & H2 & Hu & H3)]].
  - rewrite (check_stat_cert_fails m H). count_events. auto 10.
  - rewrite (check_stat_key_fails m H1 H2). count_events. auto 10.
  - rewrite (check_load_fails m H1 H2 Hu H3). count_events. auto 10.
Qed.

Lemma failed_cycle_keeps_state_witness :
  cycle_fails (built polling_config vanishing_world)
              "stat cert.pem: no such file or directory" /\
  self (state_of (check (built polling_config vanishing_world))) =
    self (built polling_config vanishing_world) /\
  on_error_calls (events_of (check (built polling_config vanishing_world))) =
    [(8, "stat cert.pem: no such file or directory")].
Proof.
  split.
  - left. reflexivity.
  - pose proof (@failed_cycle_keeps_state
                  (built polling_config vanishing_world)
                  "stat cert.pem: no such file or directory"
                  (or_introl eq_refl)) as H.
    split; [apply H | apply H].
Defined.

(** A load that fails after a detected change is a failed cycle too. *)
Example corrupt_files_fail_the_cycle :
  cycle_fails (built polling_config corrupt_world)
              "tls: failed to find any PEM data in certificate input".
Proof.
  right. right. exists (mkFileInfo late), (mkFileInfo late).
  repeat split; reflexivity.
Qed.

(** ** Successful cycles *)

(** C2: when a change is detected and the load succeeds, the cycle
    performs, after the load and in this order: the write of both stored
    modification times, the swap of the published pointer under the mutex,
    and the call of [OnReload] (one call; none when the callback is nil).
    The stored times become the ones the two stats returned before the
    load, and the published pointer refers to a fresh cell that holds the
    loaded pair. *)
Theorem successful_cycle_order m statCert statKey pair :
  mu (self m) = false ->
  cycle_reloads m statCert statKey pair ->
  outcome_of (check m) = Done tt /\
  events_of (check m) =
    probe_events (self m) statCert statKey
      ++ [EvLoadX509KeyPair (CertificatePath (config (self m)))
                            (KeyPath (config (self m))) (inr pair);
          EvWrite f_certModTime; EvWrite f_keyModTime;
          EvLock; EvWrite f_certificate; EvUnlock]
      ++ notify_reload (config (self m)) /\
  certModTime (self (state_of (check m))) = ModTime statCert /\
  keyModTime (self (state_of (check m))) = ModTime statKey /\
  certificate (self (state_of (check m))) = Some (length (heap (sys m))) /\
  deref (heap (sys (state_of (check m))))
        (certificate (self (state_of (check m)))) = Some pair /\
  on_reload_calls (events_of (check m)) =
    match OnReload (config (self m)) with
    | Some f => [f]
    | None => []
    end /\
  on_error_calls (events_of (check m)) = [].
Proof.
  intros Hmu (H1 & H2 & Hu & H3).
  rewrite (check_reloads m Hmu H1 H2 Hu H3). count_events.
  repeat split.
  cbn [deref reloaded certificate].
  rewrite nth_error_app2 by lia. rewrite Nat.sub_diag. reflexivity.
Qed.

Lemma successful_cycle_order_witness :
  mu (self (built polling_config rotating_world)) = false /\
  cycle_reloads (built polling_config rotating_world)
                (mkFileInfo late) (mkFileInfo late) pair_two /\
  events_of (check (built polling_config rotating_world)) =
    [EvStat "cert.pem" (inr (mkFileInfo late));
     EvStat "key.pem" (inr (mkFileInfo late));
     EvRead f_keyModTime;
     EvLoadX509KeyPair "cert.pem" "key.pem" (inr pair_two);
     EvWrite f_certModTime; EvWrite f_keyModTime;
     EvLock; EvWrite f_certificate; EvUnlock;
     EvOnReload 7] /\
  on_reload_calls (events_of (check (built polling_config rotating_world))) =
    [7].
Proof.
  assert (Hmu : mu (self (built polling_config rotating_world)) = false)
    by reflexivity.
  assert (Hr : cycle_reloads (built polling_config rotating_world)
                 (mkFileInfo late) (mkFileInfo late) pair_two)
    by (repeat split; reflexivity).
  pose proof (successful_cycle_order Hmu Hr) as H.
  split; [exact Hmu|]. split; [exact Hr|].
  split; [apply H | apply H].
Defined.

(** ** Change detection *)

Lemma unchanged_iff l statCert statKey :
  unchanged l statCert statKey = true <->
  UnixMilli (ModTime statCert) = UnixMilli (certModTime l) /\
  UnixMilli (ModTime statKey) = UnixMilli (keyModTime l).
Proof.
  unfold unchanged. rewrite andb_true_iff, !Z.eqb_eq. tauto.
Qed.

Lemma changed_iff l statCert statKey :
  unchanged l statCert statKey = false <->
  UnixMilli (ModTime statCert) <> UnixMilli (certModTime l) \/
  UnixMilli (ModTime statKey) <> UnixMilli (keyModTime l).
Proof.
  unfold unchanged. rewrite andb_false_iff, !Z.eqb_neq. tauto.
Qed.


(** The loads a cycle attempts once both stats have succeeded. *)
Lemma check_load_attempts m statCert statKey :
  seen_cert m = inr statCert ->
  seen_key m = inr statKey ->
  load_attempts (events_of (check m)) =
    if unchanged (self m) statCert statKey then 0 else 1.
Proof.
  intros H1 H2.
  check_paths m; count_events; try congruence;
    replace statCert with statCert0 by congruence;
    replace statKey with statKey0 by congruence;
    rewrite ?Hsame; reflexivity.
Qed.

(** The comparison as the code makes it, on the int64 values of
    [UnixMilli]: in a cycle whose two stats succeed, a load is attempted
    exactly when one of the two values differs from that of the stored
    time; when both agree, the cycle ends normally, calls neither callback,
    allocates nothing and leaves the loader as it was. *)
Lemma reload_iff_UnixMilli_changed m statCert statKey :
  seen_cert m = inr statCert ->
  seen_key m = inr statKey ->
  (load_attempts (events_of (check m)) = 1 <->
     UnixMilli (ModTime statCert) <> UnixMilli (certModTime (self m)) \/
     UnixMilli (ModTime statKey) <> UnixMilli (keyModTime (self m))) /\
  (load_attempts (events_of (check m)) = 0 <->
     UnixMilli (ModTime statCert) = UnixMilli (certModTime (self m)) /\
     UnixMilli (ModTime statKey) = UnixMilli (keyModTime (self m))) /\
  (UnixMilli (ModTime statCert) = UnixMilli (certModTime (self m)) ->
   UnixMilli (ModTime statKey) = UnixMilli (keyModTime (self m)) ->
     outcome_of (check m) = Done tt /\
     on_error_calls (events_of (check m)) = [] /\
     on_reload_calls (events_of (check m)) = [] /\
     certificate (self (state_of (check m))) = certificate (self m) /\
     self (state_of (check m)) = self m /\
     heap (sys (state_of (check m))) = heap (sys m)).
Proof.
  intros H1 H2. rewrite (check_load_attempts m H1 H2).
  rewrite <- changed_iff, <- unchanged_iff.
  split; [|split].
  - destruct (unchanged (self m) statCert statKey); split; congruence.
  - destruct (unchanged (self m) statCert statKey); split; congruence.
  - intros Hc Hk.
    assert (Hu : unchanged (self m) statCert statKey = true)
      by (apply unchanged_iff; auto).
    rewrite (check_unchanged m H1 H2 Hu). count_events. auto 10.
Qed.

Example reload_iff_UnixMilli_changed_still :
  seen_cert (built polling_config still_world) = inr (mkFileInfo early) /\
  seen_key (built polling_config still_world) = inr (mkFileInfo early) /\
  load_attempts (events_of (check (built polling_config still_world))) = 0 /\
  certificate (self (state_of (check (built polling_config still_world)))) =
    certificate (self (built polling_config still_world)).
Proof.
  assert (H1 : seen_cert (built polling_config still_world)
               = inr (mkFileInfo early)) by reflexivity.
  assert (H2 : seen_key (built polling_config still_world)
               = inr (mkFileInfo early)) by reflexivity.
  pose proof (reload_iff_UnixMilli_changed
                (built polling_config still_world) H1 H2)
    as (_ & Hzero & Hsame).
  split; [exact H1|]. split; [exact H2|]. split.
  - apply Hzero. split; reflexivity.
  - apply Hsame; reflexivity.
Defined.

(** Times that differ by less than a millisecond count as unchanged. *)
Example sub_millisecond_change_unseen :
  unchanged (mkLoader polling_config false false None (Some 0)
                      (mkTime 1700000000 250000000)
                      (mkTime 1700000000 250000000))
            (mkFileInfo (mkTime 1700000000 250999999))
            (mkFileInfo (mkTime 1700000000 250000001)) = true.
Proof. reflexivity. Qed.

(** ** Missing callbacks *)

(** A cycle never panics, whatever the files and the callbacks are. *)
Lemma check_never_panics m msg : outcome_of (check m) <> Panic msg.
Proof. check_paths m; discriminate. Qed.

(** A cycle that finds the mutex free returns. *)
Lemma check_returns m : mu (self m) = false -> outcome_of (check m) = Done tt.
Proof.
  intros Hmu. check_paths m; try reflexivity. congruence.
Qed.

Lemma check_calls_need_callbacks m :
  (OnError (config (self m)) = None ->
     on_error_calls (events_of (check m)) = []) /\
  (OnReload (config (self m)) = None ->
     on_reload_calls (events_of (check m)) = []).
Proof.
  check_paths m; count_events;
    (split; intros Hnil; rewrite ?Hnil; reflexivity).
Qed.

Lemma without_callbacks_app e1 e2 :
  without_callbacks (e1 ++ e2) = without_callbacks e1 ++ without_callbacks e2.
Proof. apply filter_app. Qed.

Lemma without_callbacks_probe l statCert statKey :
  without_callbacks (probe_events l statCert statKey) =
    probe_events l statCert statKey.
Proof.
  unfold probe_events, compare_events.
  destruct (UnixMilli (ModTime statKey) =? UnixMilli (keyModTime l))%Z;
    reflexivity.
Qed.

Lemma without_callbacks_notify_error cfg err :
  without_callbacks (notify_error cfg err) = [].
Proof. unfold notify_error. destruct (OnError cfg); reflexivity. Qed.

Lemma without_callbacks_notify_reload cfg :
  without_callbacks (notify_reload cfg) = [].
Proof. unfold notify_reload. destruct (OnReload cfg); reflexivity. Qed.

(** With both callbacks nil a cycle does what it does otherwise, the
    notifications left out. *)
Lemma check_muted m :
  check (muted m) =
    (outcome_of (check m), muted (state_of (check m)),
     without_callbacks (events_of (check m))).
Proof.
  destruct (seen_cert m) as [e1 | sc] eqn:H1.
  { rewrite (check_stat_cert_fails m H1).
    rewrite (@check_stat_cert_fails (muted m) e1 H1). cbn.
    rewrite without_callbacks_notify_error. reflexivity. }
  destruct (seen_key m) as [e2 | sk] eqn:H2.
  { rewrite (check_stat_key_fails m H1 H2).
    rewrite (@check_stat_key_fails (muted m) sc e2 H1 H2). cbn.
    rewrite without_callbacks_notify_error. reflexivity. }
  destruct (unchanged (self m) sc sk) eqn:Hu.
  { rewrite (check_unchanged m H1 H2 Hu).
    rewrite (@check_unchanged (muted m) sc sk H1 H2 Hu).
    cbn [outcome_of state_of events_of fst snd].
    rewrite without_callbacks_probe. reflexivity. }
  destruct (seen_pair m) as [e3 | pair] eqn:H3.
  { rewrite (check_load_fails m H1 H2 Hu H3).
    rewrite (@check_load_fails (muted m) sc sk e3 H1 H2 Hu H3).
    cbn [outcome_of state_of events_of fst snd].
    rewrite without_callbacks_app, without_callbacks_probe. cbn.
    rewrite without_callbacks_notify_error. reflexivity. }
  destruct (mu (self m)) eqn:Hmu.
  - rewrite (check_reload_waits m Hmu H1 H2 Hu H3).
    rewrite (@check_reload_waits (muted m) sc sk pair Hmu H1 H2 Hu H3).
    cbn [outcome_of state_of events_of fst snd].
    rewrite without_callbacks_app, without_callbacks_probe. reflexivity.
  - rewrite (check_reloads m Hmu H1 H2 Hu H3).
    rewrite (@check_reloads (muted m) sc sk pair Hmu H1 H2 Hu H3).
    cbn [outcome_of state_of events_of fst snd].
    rewrite without_callbacks_app, without_callbacks_probe. cbn.
    rewrite without_callbacks_notify_reload. reflexivity.
Qed.

(** C8: a cycle never panics; with the mutex free it returns, whatever
    its path.  A nil [OnError] or [OnReload] is not called, and a loader
    with both callbacks nil ends its cycle as the same loader with
    callbacks does, same outcome, same state, same events apart from the
    notifications. *)
Theorem missing_callbacks_are_skipped m :
  (forall msg, outcome_of (check m) <> Panic msg) /\
  (mu (self m) = false -> outcome_of (check m) = Done tt) /\
  (OnError (config (self m)) = None ->
     on_error_calls (events_of (check m)) = []) /\
  (OnReload (config (self m)) = None ->
     on_reload_calls (events_of (check m)) = []) /\
  check (muted m) =
    (outcome_of (check m), muted (state_of (check m)),
     without_callbacks (events_of (check m))).
Proof.
  split; [intros msg; apply check_never_panics|].
  split; [apply check_returns|].
  split; [apply check_calls_need_callbacks|].
  split; [apply check_calls_need_callbacks|].
  apply check_muted.
Qed.

(** A cycle that fails on a loader without callbacks. *)
Example silent_loader_survives_failure :
  check (built silent_config vanishing_world) =
    (Done tt,
     mkMachine (self (built silent_config vanishing_world))
               (later 1 (sys (built silent_config vanishing_world))),
     [EvStat "cert.pem" (inl "stat cert.pem: no such file or directory")]).
Proof. reflexivity. Qed.

(** A cycle that reloads on a loader without callbacks. *)
Example silent_loader_reloads :
  outcome_of (check (built silent_config rotating_world)) = Done tt /\
  events_of (check (built silent_config rotating_world)) =
    [EvStat "cert.pem" (inr (mkFileInfo late));
     EvStat "key.pem" (inr (mkFileInfo late));
     EvRead f_keyModTime;
     EvLoadX509KeyPair "cert.pem" "key.pem" (inr pair_two);
     EvWrite f_certModTime; EvWrite f_keyModTime;
     EvLock; EvWrite f_certificate; EvUnlock].
Proof. split; reflexivity. Qed.

(** ** Construction *)

Lemma count_go_app e1 e2 : count_go (e1 ++ e2) = count_go e1 + count_go e2.
Proof.
  induction e1 as [|e e1 IH]; [reflexivity|].
  destruct e; cbn; rewrite IH; reflexivity.
Qed.

Lemma New_fails cfg s err :
  construction_fails cfg s err ->
  exists n evs,
    NewTlsCertificateLoader cfg s = (Done (None, Some err), later n s, evs) /\
    count_go evs = 0 /\ on_error_calls evs = [] /\ on_reload_calls evs = [].
Proof.
  unfold construction_fails, first_stat, second_stat, first_load.
  intros [H | [(sc & H1 & H2) | (sc & sk & H1 & H2 & H3)]];
    unfold NewTlsCertificateLoader, bind, os_Stat, tls_LoadX509KeyPair; cbn.
  - rewrite H. exists 1. eexists. split; [reflexivity|]. cbn. auto.
  - rewrite H1. cbn. rewrite H2. exists 2. eexists.
    split; [reflexivity|]. cbn. auto.
  - rewrite H1. cbn. rewrite H2. cbn. rewrite H3. exists 3. eexists.
    split; [reflexivity|]. cbn. auto.
Qed.

Lemma New_succeeds cfg s statCert statKey pair :
  construction_loads cfg s statCert statKey pair ->
  NewTlsCertificateLoader cfg s =
    (Done (Some (fresh_loader cfg s statCert statKey), None),
     mkSys (outside s) (3 + tick s) (heap s ++ [pair])
           (if (CheckReloadPeriod cfg >? 0)%Z
            then S (goroutines s) else goroutines s),
     [EvStat (CertificatePath cfg) (inr statCert);
      EvStat (KeyPath cfg) (inr statKey);
      EvLoadX509KeyPair (CertificatePath cfg) (KeyPath cfg) (inr pair)]
       ++ (if (CheckReloadPeriod cfg >? 0)%Z then [EvGo] else [])).
Proof.
  unfold construction_loads, first_stat, second_stat, first_load.
  intros (H1 & H2 & H3).
  unfold NewTlsCertificateLoader, bind, os_Stat, tls_LoadX509KeyPair,
    address_of, go_run, fresh_loader; cbn.
  rewrite H1. cbn. rewrite H2. cbn. rewrite H3. cbn.
  destruct (CheckReloadPeriod cfg >? 0)%Z; reflexivity.
Qed.

(** Every construction either fails or loads. *)
Lemma New_cases cfg s :
  (exists err, construction_fails cfg s err) \/
  (exists statCert statKey pair, construction_loads cfg s statCert statKey pair).
Proof.
  unfold construction_fails, construction_loads.
  destruct (first_stat cfg s) as [e1 | sc] eqn:H1; [left; eauto|].
  destruct (second_stat cfg s) as [e2 | sk] eqn:H2; [left; eauto 6|].
  destruct (first_load cfg s) as [e3 | pair] eqn:H3; [left; eauto 8|].
  right. eauto 8.
Qed.

(** C4: when one of the two stats or the initial load fails, the
    constructor returns a nil loader and that error, starts no goroutine,
    allocates nothing and calls no callback.  When the three succeed it
    returns a loader and a nil error; the loader is open, carries the
    configuration, publishes a pointer to the loaded pair and stores the two
    modification times the stats returned; a goroutine is started exactly
    when the period is positive. *)
Theorem construction_fails_fast_or_builds cfg s :
  (forall err, construction_fails cfg s err ->
     outcome_of (NewTlsCertificateLoader cfg s) = Done (None, Some err) /\
     count_go (events_of (NewTlsCertificateLoader cfg s)) = 0 /\
     goroutines (state_of (NewTlsCertificateLoader cfg s)) = goroutines s /\
     heap (state_of (NewTlsCertificateLoader cfg s)) = heap s /\
     on_error_calls (events_of (NewTlsCertificateLoader cfg s)) = [] /\
     on_reload_calls (events_of (NewTlsCertificateLoader cfg s)) = []) /\
  (forall statCert statKey pair,
     construction_loads cfg s statCert statKey pair ->
     exists loader,
       outcome_of (NewTlsCertificateLoader cfg s) = Done (Some loader, None) /\
       config loader = cfg /\
       closed loader = false /\
       deref (heap (state_of (NewTlsCertificateLoader cfg s)))
             (certificate loader) = Some pair /\
       certModTime loader = ModTime statCert /\
       keyModTime loader = ModTime statKey /\
       (count_go (events_of (NewTlsCertificateLoader cfg s)) = 1 <->
          (CheckReloadPeriod cfg > 0)%Z) /\
       (count_go (events_of (NewTlsCertificateLoader cfg s)) = 0 <->
          (CheckReloadPeriod cfg <= 0)%Z) /\
       goroutines (state_of (NewTlsCertificateLoader cfg s)) =
         goroutines s + count_go (events_of (NewTlsCertificateLoader cfg s)) /\
       (closeChan loader = None <-> (CheckReloadPeriod cfg <= 0)%Z)).
Proof.
  split.
  - intros err H. destruct (New_fails H) as (n & evs & -> & Hgo & He & Hr).
    cbn. auto 10.
  - intros sc sk pair H. rewrite (New_succeeds H).
    exists (fresh_loader cfg s sc sk).
    cbn [outcome_of state_of events_of fst snd heap goroutines].
    split; [reflexivity|]. split; [reflexivity|]. split; [reflexivity|].
    split.
    { cbn. rewrite nth_error_app2 by lia. rewrite Nat.sub_diag. reflexivity. }
    split; [reflexivity|]. split; [reflexivity|].
    unfold fresh_loader. cbn [closeChan].
    destruct (Z.gtb_spec (CheckReloadPeriod cfg) 0); cbn.
    + repeat split; try lia; try discriminate; intros; lia.
    + repeat split; try lia; try discriminate; intros; lia.
Qed.

Lemma construction_fails_fast_or_builds_witness :
  construction_fails polling_config (boot empty_world)
                     "no such file or directory" /\
  outcome_of (NewTlsCertificateLoader polling_config (boot empty_world)) =
    Done (None, Some "no such file or directory") /\
  construction_loads polling_config (boot still_world)
                     (mkFileInfo early) (mkFileInfo early) pair_one /\
  exists loader,
    outcome_of (NewTlsCertificateLoader polling_config (boot still_world)) =
      Done (Some loader, None) /\
    certModTime loader = early.
Proof.
  assert (Hf : construction_fails polling_config (boot empty_world)
                 "no such file or directory") by (left; reflexivity).
  assert (Hl : construction_loads polling_config (boot still_world)
                 (mkFileInfo early) (mkFileInfo early) pair_one)
    by (repeat split; reflexivity).
  split; [exact Hf|]. split.
  - apply (proj1 (construction_fails_fast_or_builds
                    polling_config (boot empty_world)) _ Hf).
  - split; [exact Hl|].
    destruct (proj2 (construction_fails_fast_or_builds
                       polling_config (boot still_world)) _ _ _ Hl)
      as (loader & H).
    exists loader. split; apply H.
Defined.

(** The three ways a construction fails, and the two modes of success. *)
Example construction_without_key_file :
  NewTlsCertificateLoader polling_config
    (boot (mkWorld (fun _ name =>
                      if String.eqb name "key.pem"
                      then inl "stat key.pem: no such file or directory"
                      else inr (mkFileInfo early))
                   (fun _ _ _ => inr pair_one))) =
    (Done (None, Some "stat key.pem: no such file or directory"),
     later 2 (boot (mkWorld (fun _ name =>
                      if String.eqb name "key.pem"
                      then inl "stat key.pem: no such file or directory"
                      else inr (mkFileInfo early))
                   (fun _ _ _ => inr pair_one))),
     [EvStat "cert.pem" (inr (mkFileInfo early));
      EvStat "key.pem" (inl "stat key.pem: no such file or directory")]).
Proof. reflexivity. Qed.

Example construction_polling :
  self (built polling_config still_world) =
    mkLoader polling_config false false (Some (mkChan 1 0)) (Some 0)
             early early /\
  goroutines (sys (built polling_config still_world)) = 1.
Proof. split; reflexivity. Qed.

Example construction_single_shot :
  self (built single_shot_config still_world) =
    mkLoader single_shot_config false false None (Some 0) early early /\
  goroutines (sys (built single_shot_config still_world)) = 0.
Proof. split; reflexivity. Qed.

(** ** The methods that take the mutex *)

Lemma GetCertificate_eq hello m :
  mu (self m) = false ->
  GetCertificate hello m =
    (Done (certificate (self m), None), m,
     [EvLock; EvRead f_certificate; EvUnlock]).
Proof.
  intros Hmu.
  destruct m as [[cfg b c ch p ct kt] s]. cbn in Hmu. subst b. reflexivity.
Qed.

Lemma IsClosed_eq m :
  mu (self m) = false ->
  IsClosed m = (Done (closed (self m)), m, [EvLock; EvRead f_closed; EvUnlock]).
Proof.
  intros Hmu.
  destruct m as [[cfg b c ch p ct kt] s]. cbn in Hmu. subst b. reflexivity.
Qed.

(** [Close] on a loader that is closed already. *)
Lemma Close_again m :
  mu (self m) = false ->
  closed (self m) = true ->
  Close m =
    (Done tt, m, [EvLock; EvRead f_closed; EvWrite f_closed; EvUnlock]).
Proof.
  intros Hmu Hc.
  destruct m as [[cfg b c ch p ct kt] s]. cbn in Hmu, Hc. subst b c.
  destruct ch; reflexivity.
Qed.

(** [Close] on an open loader without a channel. *)
Lemma Close_first_no_chan m :
  mu (self m) = false ->
  closed (self m) = false ->
  closeChan (self m) = None ->
  Close m =
    (Done tt, mkMachine (set_closed true (self m)) (sys m),
     [EvLock; EvRead f_closed; EvWrite f_closed; EvUnlock]).
Proof.
  intros Hmu Hc Hch.
  destruct m as [[cfg b c ch p ct kt] s]. cbn in Hmu, Hc, Hch. subst b c ch.
  reflexivity.
Qed.

(** [Close] on an open loader whose channel has room. *)
Lemma Close_first_chan m c :
  mu (self m) = false ->
  closed (self m) = false ->
  closeChan (self m) = Some c ->
  chanLen c < chanCap c ->
  Close m =
    (Done tt,
     mkMachine
       (set_closeChan (Some (mkChan (chanCap c) (S (chanLen c))))
                      (set_closed true (self m)))
       (sys m),
     [EvLock; EvRead f_closed; EvWrite f_closed; EvUnlock; EvSend]).
Proof.
  intros Hmu Hc Hch Hroom.
  destruct m as [[cfg b c0 ch p ct kt] s]. cbn in Hmu, Hc, Hch. subst b c0 ch.
  apply Nat.ltb_lt in Hroom.
  unfold Close, bind, mu_Lock, mu_Unlock, rd, wr, get_closeChan, ret,
    closeChan_send. cbn -[Nat.ltb]. rewrite Hroom. reflexivity.
Qed.

(** ** What every operation preserves *)

Lemma parsed_before_later m m' c :
  outside (sys m') = outside (sys m) ->
  config (self m') = config (self m) ->
  tick (sys m) <= tick (sys m') ->
  parsed_before m c -> parsed_before m' c.
Proof.
  unfold parsed_before. intros Ho Hc Ht (t & Hlt & Hl).
  exists t. rewrite Ho, Hc. split; [lia | exact Hl].
Qed.

Lemma holds_key_pair_frame m m' :
  outside (sys m') = outside (sys m) ->
  config (self m') = config (self m) ->
  tick (sys m) <= tick (sys m') ->
  certificate (self m') = certificate (self m) ->
  (exists more, heap (sys m') = heap (sys m) ++ more) ->
  holds_key_pair m -> holds_key_pair m'.
Proof.
  intros Ho Hc Ht Hp (more & Hh) (a & c & Ha & Hn & Hpb).
  exists a, c. rewrite Hp, Hh. split; [exact Ha|]. split.
  - rewrite nth_error_app1; [exact Hn|].
    apply nth_error_Some. congruence.
  - eapply parsed_before_later; eauto.
Qed.

Lemma frame_same_heap m m' :
  heap (sys m') = heap (sys m) ->
  exists more, heap (sys m') = heap (sys m) ++ more.
Proof. intros ->. exists []. rewrite app_nil_r. reflexivity. Qed.

(** A cycle keeps the invariant. *)
Lemma check_keeps_inv m :
  loader_inv m -> loader_inv (state_of (check m)).
Proof.
  intros (Hmu & Hk & Hch).
  destruct (seen_cert m) as [e1 | sc] eqn:H1.
  { rewrite (check_stat_cert_fails m H1). cbn.
    split; [exact Hmu|]. split; [|exact Hch].
    apply holds_key_pair_frame with (m := m); cbn; auto.
    apply frame_same_heap; reflexivity. }
  destruct (seen_key m) as [e2 | sk] eqn:H2.
  { rewrite (check_stat_key_fails m H1 H2). cbn.
    split; [exact Hmu|]. split; [|exact Hch].
    apply holds_key_pair_frame with (m := m); cbn; auto.
    apply frame_same_heap; reflexivity. }
  destruct (unchanged (self m) sc sk) eqn:Hu.
  { rewrite (check_unchanged m H1 H2 Hu). cbn.
    split; [exact Hmu|]. split; [|exact Hch].
    apply holds_key_pair_frame with (m := m); cbn; auto.
    apply frame_same_heap; reflexivity. }
  destruct (seen_pair m) as [e3 | pair] eqn:H3.
  { rewrite (check_load_fails m H1 H2 Hu H3). cbn.
    split; [exact Hmu|]. split; [|exact Hch].
    apply holds_key_pair_frame with (m := m); cbn; auto.
    apply frame_same_heap; reflexivity. }
  rewrite (check_reloads m Hmu H1 H2 Hu H3). cbn.
  split; [reflexivity|]. split; [|exact Hch].
  exists (length (heap (sys m))), pair.
  split; [reflexivity|]. split.
  - cbn. rewrite nth_error_app2 by lia. rewrite Nat.sub_diag. reflexivity.
  - exists (S (S (tick (sys m)))). cbn. split; [lia | exact H3].
Qed.

(** A cycle touches neither the configuration, nor the closed flag, nor
    the channel, and sends nothing. *)
Lemma check_frame m :
  config (self (state_of (check m))) = config (self m) /\
  closed (self (state_of (check m))) = closed (self m) /\
  closeChan (self (state_of (check m))) = closeChan (self m) /\
  count_sends (events_of (check m)) = 0.
Proof.
  assert (Hp : forall l a b, count_sends (probe_events l a b) = 0).
  { intros l a b. unfold probe_events, compare_events.
    destruct (UnixMilli (ModTime b) =? UnixMilli (keyModTime l))%Z;
      reflexivity. }
  assert (He : forall c e, count_sends (notify_error c e) = 0).
  { intros c e. unfold notify_error. destruct (OnError c); reflexivity. }
  assert (Hr : forall c, count_sends (notify_reload c) = 0).
  { intros c. unfold notify_reload. destruct (OnReload c); reflexivity. }
  check_paths m; cbn [state_of events_of fst snd self];
    rewrite ?count_sends_app; cbn [count_sends];
    rewrite ?count_sends_app, ?Hp, ?He, ?Hr; cbn; auto.
Qed.

(** A successful construction establishes the invariant. *)
Lemma New_establishes_inv cfg s0 loader s1 evs :
  NewTlsCertificateLoader cfg s0 = (Done (Some loader, None), s1, evs) ->
  loader_inv (mkMachine loader s1) /\
  config loader = cfg /\
  closed loader = false /\
  closeChan loader =
    (if (CheckReloadPeriod cfg >? 0)%Z then Some (mkChan 1 0) else None).
Proof.
  intros H.
  destruct (New_cases cfg s0) as [(err & Hf) | (sc & sk & pair & Hl)].
  - destruct (New_fails Hf) as (n & evs' & Heq & _). congruence.
  - pose proof (New_succeeds Hl) as Heq. rewrite Heq in H.
    injection H as <- <- <-.
    split; [|repeat split].
    split; [reflexivity|]. split.
    + exists (length (heap s0)), pair. cbn. split; [reflexivity|]. split.
      * rewrite nth_error_app2 by lia. rewrite Nat.sub_diag. reflexivity.
      * exists (S (S (tick s0))). cbn. split; [lia | apply Hl].
    + unfold chan_ok, fresh_loader. cbn.
      destruct (CheckReloadPeriod cfg >? 0)%Z; cbn; auto.
Qed.

(** What one operation that returns does to the loader. *)
Lemma exec_effect o m m' evs :
  loader_inv m ->
  exec o m = (Done tt, m', evs) ->
  loader_inv m' /\
  config (self m') = config (self m) /\
  closed (self m') = closed (self m) || is_Close o /\
  is_nil (closeChan (self m')) = is_nil (closeChan (self m)) /\
  count_sends evs =
    (if is_Close o && negb (closed (self m))
        && negb (is_nil (closeChan (self m)))
     then 1 else 0).
Proof.
  intros Hinv H. pose proof Hinv as (Hmu & Hk & Hch).
  destruct o; cbn [exec is_Close] in H |- *; rewrite ?orb_false_r, ?orb_true_r.
  - (* check *)
    pose proof (check_keeps_inv Hinv) as Hinv'.
    pose proof (check_frame m) as (Hc1 & Hc2 & Hc3 & Hc4).
    rewrite H in Hinv', Hc1, Hc2, Hc3, Hc4. cbn in Hinv', Hc1, Hc2, Hc3, Hc4.
    rewrite Hc3. auto.
  - (* Close *)
    destruct (closed (self m)) eqn:Hc.
    + rewrite (Close_again m Hmu Hc) in H. injection H as <- <-.
      cbn. rewrite Hc. auto.
    + destruct (closeChan (self m)) as [c|] eqn:Hcc.
      * unfold chan_ok in Hch. rewrite Hcc in Hch. destruct Hch as [Hcap Hlen].
        specialize (Hlen Hc).
        assert (Hroom : chanLen c < chanCap c) by lia.
        rewrite (Close_first_chan m Hmu Hc Hcc Hroom) in H.
        injection H as <- <-. cbn.
        split; [|auto].
        split; [exact Hmu|]. split.
        -- apply holds_key_pair_frame with (m := m); cbn; auto.
           apply frame_same_heap; reflexivity.
        -- unfold chan_ok. cbn. split; [exact Hcap | discriminate].
      * rewrite (Close_first_no_chan m Hmu Hc Hcc) in H.
        injection H as <- <-. cbn. rewrite Hcc.
        split; [|auto].
        split; [exact Hmu|]. split.
        -- apply holds_key_pair_frame with (m := m); cbn; auto.
           apply frame_same_heap; reflexivity.
        -- unfold chan_ok. cbn. rewrite Hcc. exact I.
  - (* IsClosed *)
    unfold bind in H. rewrite (IsClosed_eq m Hmu) in H. cbn in H.
    injection H as <- <-. cbn. auto.
  - (* GetCertificate *)
    unfold bind in H. rewrite (GetCertificate_eq hello m Hmu) in H. cbn in H.
    injection H as <- <-. cbn. auto.
  - (* the goroutine takes the signal *)
    unfold closeChan_recv in H.
    destruct (closeChan (self m)) as [c|] eqn:Hcc; [|discriminate].
    destruct (chanLen c) as [|n] eqn:Hn; [discriminate|].
    injection H as <- <-. cbn.
    unfold chan_ok in Hch. rewrite Hcc in Hch. destruct Hch as [Hcap Hlen].
    split; [|auto].
    split; [exact Hmu|]. split.
    + apply holds_key_pair_frame with (m := m); cbn; auto.
      apply frame_same_heap; reflexivity.
    + unfold chan_ok. cbn. split; [exact Hcap|].
      intros Hc. specialize (Hlen Hc). lia.
Qed.

(** Every reachable machine satisfies the invariant. *)
Lemma reachable_inv m : reachable m -> loader_inv m.
Proof.
  induction 1 as [cfg s0 loader s1 evs H | m o m' evs _ IH H].
  - eapply New_establishes_inv; eassumption.
  - eapply exec_effect; eassumption.
Qed.

(** Each method returns when called between two operations. *)
Lemma exec_returns o m :
  loader_inv m ->
  o <> op_recv ->
  exists m' evs, exec o m = (Done tt, m', evs).
Proof.
  intros Hinv Ho. pose proof Hinv as (Hmu & Hk & Hch).
  destruct o; cbn [exec].
  - pose proof (check_returns m Hmu) as Hr.
    destruct (check m) as [[r m'] evs]. cbn in Hr. subst r. eauto.
  - destruct (closed (self m)) eqn:Hc.
    + rewrite (Close_again m Hmu Hc). eauto.
    + destruct (closeChan (self m)) as [c|] eqn:Hcc.
      * unfold chan_ok in Hch. rewrite Hcc in Hch. destruct Hch as [Hcap Hlen].
        specialize (Hlen Hc).
        assert (Hroom : chanLen c < chanCap c) by lia.
        rewrite (Close_first_chan m Hmu Hc Hcc Hroom). eauto.
      * rewrite (Close_first_no_chan m Hmu Hc Hcc). eauto.
  - unfold bind. rewrite (IsClosed_eq m Hmu). cbn. eauto.
  - unfold bind. rewrite (GetCertificate_eq hello m Hmu). cbn. eauto.
  - congruence.
Qed.

(** ** Sequences of operations *)

Lemma bind_Done {St A B} (c : M St A) (k : A -> M St B) s b s' evs :
  bind c k s = (Done b, s', evs) ->
  exists a s1 e1 e2,
    c s = (Done a, s1, e1) /\ k a s1 = (Done b, s', e2) /\ evs = e1 ++ e2.
Proof.
  unfold bind. destruct (c s) as [[[a | msg |] s1] e1]; try discriminate.
  destruct (k a s1) as [[r s2] e2] eqn:Hk. intros H. injection H as -> <- <-.
  exists a, s1, e1, e2. auto.
Qed.

Lemma exec_all_effect ops : forall m m' evs,
  loader_inv m ->
  exec_all ops m = (Done tt, m', evs) ->
  loader_inv m' /\
  config (self m') = config (self m) /\
  closed (self m') = closed (self m) || existsb is_Close ops /\
  is_nil (closeChan (self m')) = is_nil (closeChan (self m)) /\
  count_sends evs =
    (if existsb is_Close ops && negb (closed (self m))
        && negb (is_nil (closeChan (self m)))
     then 1 else 0).
Proof.
  induction ops as [|o rest IH]; intros m m' evs Hinv H.
  - cbn in H. injection H as <- <-. cbn. rewrite orb_false_r. auto.
  - cbn [exec_all] in H.
    apply bind_Done in H. destruct H as ([] & m1 & e1 & e2 & Ho & Hr & ->).
    destruct (@exec_effect o m m1 e1 Hinv Ho) as (Hinv1 & Hc1 & Hcl1 & Hn1 & Hs1).
    destruct (IH _ _ _ Hinv1 Hr) as (Hinv2 & Hc2 & Hcl2 & Hn2 & Hs2).
    split; [exact Hinv2|]. split; [congruence|].
    split; [rewrite Hcl2, Hcl1; cbn; rewrite orb_assoc; reflexivity|].
    split; [congruence|].
    rewrite count_sends_app, Hs1, Hs2, Hcl1, Hn1. cbn [existsb].
    destruct (is_Close o), (existsb is_Close rest), (closed (self m)),
      (is_nil (closeChan (self m))); reflexivity.
Qed.

Lemma exec_all_reachable ops : forall m m' evs,
  reachable m ->
  exec_all ops m = (Done tt, m', evs) ->
  reachable m'.
Proof.
  induction ops as [|o rest IH]; intros m m' evs Hr H.
  - cbn in H. injection H as <- <-. exact Hr.
  - cbn [exec_all] in H.
    apply bind_Done in H. destruct H as ([] & m1 & e1 & e2 & Ho & Hrest & ->).
    eapply IH; [|exact Hrest]. eapply reachable_step; eassumption.
Qed.

(** The goroutine's loop is a sequence of such operations. *)
Lemma run_as_ops choices : forall m,
  run choices m = exec_all (run_ops choices) m.
Proof.
  induction choices as [|c rest IH]; intros m; [reflexivity|].
  destruct c; cbn [run run_ops exec_all exec].
  - unfold bind. destruct (check m) as [[[[] | msg |] m1] e1]; try reflexivity.
    rewrite IH. reflexivity.
  - unfold bind, ret.
    destruct (closeChan_recv m) as [[[[] | msg |] m1] e1]; try reflexivity.
    rewrite app_nil_r. reflexivity.
Qed.

(** So what the goroutine does keeps the machine among the reachable ones. *)
Lemma run_reachable choices m m' evs :
  reachable m ->
  run choices m = (Done tt, m', evs) ->
  reachable m'.
Proof.
  intros Hr H. rewrite run_as_ops in H.
  eapply exec_all_reachable; eassumption.
Qed.

(** The sample machines are reachable. *)
Lemma built_reachable cfg w loader :
  outcome_of (NewTlsCertificateLoader cfg (boot w)) = Done (Some loader, None) ->
  reachable (built cfg w).
Proof.
  unfold built.
  destruct (NewTlsCertificateLoader cfg (boot w)) as [[r s1] evs] eqn:H.
  cbn. intros ->. eapply reachable_new. exact H.
Qed.

Lemma after_reachable ops m :
  reachable m ->
  outcome_of (exec_all ops m) = Done tt ->
  reachable (state_of (exec_all ops m)).
Proof.
  destruct (exec_all ops m) as [[r m'] evs] eqn:H. cbn. intros Hr ->.
  eapply exec_all_reachable; eassumption.
Qed.

(** ** The published key pair *)

(** C5: a loader reached from a successful construction publishes a
    non-nil pointer to a cell that holds a key pair returned by a load of
    its two files; every operation that returns keeps it so, and every
    method returns.  [GetCertificate] returns the published pointer and a
    nil error, leaves the machine as it is, and gives the same result for
    every argument. *)
Theorem loader_always_holds_key_pair m :
  reachable m ->
  holds_key_pair m /\
  (exists pair,
     certificate (self m) <> None /\
     deref (heap (sys m)) (certificate (self m)) = Some pair) /\
  (forall o m' evs, exec o m = (Done tt, m', evs) -> holds_key_pair m') /\
  (forall o, o <> op_recv -> exists m' evs, exec o m = (Done tt, m', evs)) /\
  (forall hello,
     GetCertificate hello m =
       (Done (certificate (self m), None), m,
        [EvLock; EvRead f_certificate; EvUnlock])) /\
  (forall hello hello', GetCertificate hello m = GetCertificate hello' m).
Proof.
  intros Hr. pose proof (@reachable_inv _ Hr) as Hinv.
  pose proof Hinv as (Hmu & Hk & Hch).
  split; [exact Hk|]. split.
  { destruct Hk as (a & c & Ha & Hn & _). exists c. rewrite Ha.
    split; [discriminate | exact Hn]. }
  split.
  { intros o m' evs H. eapply exec_effect; eassumption. }
  split.
  { intros o Ho. apply exec_returns; assumption. }
  split.
  { intros hello. apply GetCertificate_eq; assumption. }
  intros hello hello'. rewrite !GetCertificate_eq by assumption. reflexivity.
Qed.

Lemma loader_always_holds_key_pair_witness :
  reachable (state_of (exec_all [op_check; op_Close; op_check]
                                (built polling_config rotating_world))) /\
  GetCertificate (Some (mkClientHelloInfo "example.org"))
    (state_of (exec_all [op_check; op_Close; op_check]
                        (built polling_config rotating_world))) =
    (Done (Some 1, None),
     state_of (exec_all [op_check; op_Close; op_check]
                        (built polling_config rotating_world)),
     [EvLock; EvRead f_certificate; EvUnlock]).
Proof.
  assert (Hr : reachable
                 (state_of (exec_all [op_check; op_Close; op_check]
                                     (built polling_config rotating_world)))).
  { apply after_reachable; [|reflexivity].
    eapply built_reachable. reflexivity. }
  split; [exact Hr|].
  apply (@loader_always_holds_key_pair _ Hr).
Defined.

(** ** Closing *)

(** C6: a loader starts open; after any operations it is closed exactly
    when [Close] was among them, and [IsClosed] says so.  The first [Close]
    sets the flag and sends the signal (when there is a channel); a [Close]
    on a closed loader changes nothing and sends nothing; so at most one
    signal is sent in all.  Once closed, the loader stays closed. *)
Theorem close_exactly_once cfg s0 loader s1 e0 ops m evs :
  NewTlsCertificateLoader cfg s0 = (Done (Some loader, None), s1, e0) ->
  exec_all ops (mkMachine loader s1) = (Done tt, m, evs) ->
  closed loader = false /\
  closed (self m) = existsb is_Close ops /\
  IsClosed m =
    (Done (existsb is_Close ops), m, [EvLock; EvRead f_closed; EvUnlock]) /\
  count_sends evs =
    (if existsb is_Close ops && negb (is_nil (closeChan loader))
     then 1 else 0) /\
  count_sends evs <= 1 /\
  (closed (self m) = true ->
     Close m =
       (Done tt, m, [EvLock; EvRead f_closed; EvWrite f_closed; EvUnlock])) /\
  (closed (self m) = false ->
     outcome_of (Close m) = Done tt /\
     closed (self (state_of (Close m))) = true /\
     count_sends (events_of (Close m)) =
       (if is_nil (closeChan (self m)) then 0 else 1)) /\
  (forall ops' m' evs',
     closed (self m) = true ->
     exec_all ops' m = (Done tt, m', evs') ->
     closed (self m') = true /\ count_sends evs' = 0).
Proof.
  intros Hnew Hops.
  destruct (@New_establishes_inv _ _ _ _ _ Hnew) as (Hinv0 & Hcfg & Hopen & Hchan).
  destruct (@exec_all_effect ops _ m evs Hinv0 Hops)
    as (Hinv & Hc & Hcl & Hn & Hs).
  cbn [self] in Hc, Hcl, Hn, Hs. rewrite Hopen in Hcl, Hs. cbn in Hcl.
  rewrite andb_true_r in Hs.
  pose proof Hinv as (Hmu & Hk & Hch).
  split; [exact Hopen|]. split; [exact Hcl|]. split.
  { rewrite <- Hcl. apply IsClosed_eq. exact Hmu. }
  split; [exact Hs|]. split.
  { rewrite Hs.
    destruct (existsb is_Close ops && negb (is_nil (closeChan loader))); lia. }
  split.
  { intros Hclosed. apply Close_again; assumption. }
  split.
  { intros Hclosed.
    destruct (closeChan (self m)) as [c|] eqn:Hcc.
    - unfold chan_ok in Hch. rewrite Hcc in Hch. destruct Hch as [Hcap Hlen].
      specialize (Hlen Hclosed).
      assert (Hroom : chanLen c < chanCap c) by lia.
      rewrite (Close_first_chan m Hmu Hclosed Hcc Hroom). cbn. auto.
    - rewrite (Close_first_no_chan m Hmu Hclosed Hcc). cbn. auto. }
  intros ops' m' evs' Hclosed H'.
  destruct (@exec_all_effect ops' m m' evs' Hinv H') as (_ & _ & Hcl' & _ & Hs').
  rewrite Hclosed in Hcl', Hs'. cbn in Hcl'.
  rewrite andb_false_r in Hs'. cbn in Hs'. auto.
Qed.

Lemma close_exactly_once_witness :
  exec_all [op_IsClosed; op_Close; op_check; op_Close; op_recv; op_Close]
           (built polling_config still_world) =
    (Done tt,
     state_of (exec_all [op_IsClosed; op_Close; op_check; op_Close;
                         op_recv; op_Close]
                        (built polling_config still_world)),
     events_of (exec_all [op_IsClosed; op_Close; op_check; op_Close;
                          op_recv; op_Close]
                         (built polling_config still_world))) /\
  closed (self (state_of (exec_all [op_IsClosed; op_Close; op_check; op_Close;
                                    op_recv; op_Close]
                                   (built polling_config still_world)))) =
    true /\
  count_sends (events_of (exec_all [op_IsClosed; op_Close; op_check; op_Close;
                                    op_recv; op_Close]
                                   (built polling_config still_world))) = 1.
Proof.
  assert (Hops :
    exec_all [op_IsClosed; op_Close; op_check; op_Close; op_recv; op_Close]
             (built polling_config still_world) =
      (Done tt,
       state_of (exec_all [op_IsClosed; op_Close; op_check; op_Close;
                           op_recv; op_Close]
                          (built polling_config still_world)),
       events_of (exec_all [op_IsClosed; op_Close; op_check; op_Close;
                            op_recv; op_Close]
                           (built polling_config still_world))))
    by reflexivity.
  assert (Hnew : NewTlsCertificateLoader polling_config (boot still_world) =
                 (Done (Some (self (built polling_config still_world)), None),
                  sys (built polling_config still_world),
                  events_of (NewTlsCertificateLoader polling_config
                                                     (boot still_world))))
    by reflexivity.
  pose proof (@close_exactly_once _ _ _ _ _ _ _ _ Hnew Hops)
    as (_ & Hclosed & _ & Hsends & _).
  split; [exact Hops|].
  split; [exact Hclosed | exact Hsends].
Defined.

(** C9: a loader built with a period that is not positive has a nil
    channel and no goroutine, and keeps the nil channel whatever is done
    with it.  [Close] on it returns after the four steps under the mutex,
    without a send (which, on the nil channel, would block for ever); the
    loader is closed afterwards and [IsClosed] returns true. *)
Theorem close_without_polling cfg s0 loader s1 e0 ops m evs :
  (CheckReloadPeriod cfg <= 0)%Z ->
  NewTlsCertificateLoader cfg s0 = (Done (Some loader, None), s1, e0) ->
  exec_all ops (mkMachine loader s1) = (Done tt, m, evs) ->
  closeChan loader = None /\
  goroutines s1 = goroutines s0 /\
  count_go e0 = 0 /\
  closeChan (self m) = None /\
  closeChan_send m = (Blocked, m, []) /\
  outcome_of (Close m) = Done tt /\
  events_of (Close m) = [EvLock; EvRead f_closed; EvWrite f_closed; EvUnlock] /\
  count_sends (events_of (Close m)) = 0 /\
  closed (self (state_of (Close m))) = true /\
  outcome_of (IsClosed (state_of (Close m))) = Done true.
Proof.
  intros Hp Hnew Hops.
  destruct (@New_establishes_inv _ _ _ _ _ Hnew) as (Hinv0 & Hcfg & Hopen & Hchan).
  assert (Hoff : (CheckReloadPeriod cfg >? 0)%Z = false).
  { destruct (Z.gtb_spec (CheckReloadPeriod cfg) 0); [lia | reflexivity]. }
  rewrite Hoff in Hchan.
  destruct (@exec_all_effect ops _ m evs Hinv0 Hops)
    as (Hinv & _ & _ & Hn & _).
  cbn [self] in Hn. rewrite Hchan in Hn.
  assert (Hnil : closeChan (self m) = None).
  { destruct (closeChan (self m)); [discriminate | reflexivity]. }
  pose proof Hinv as (Hmu & _ & _).
  split; [exact Hchan|].
  assert (Hgo : goroutines s1 = goroutines s0 /\ count_go e0 = 0).
  { destruct (New_cases cfg s0) as [(err & Hf) | (sc & sk & pair & Hl)].
    - destruct (New_fails Hf) as (n & evs' & Heq & _). congruence.
    - rewrite (New_succeeds Hl) in Hnew. rewrite Hoff in Hnew.
      injection Hnew as _ <- <-. split; reflexivity. }
  split; [apply Hgo|]. split; [apply Hgo|].
  split; [exact Hnil|].
  split; [unfold closeChan_send; rewrite Hnil; reflexivity|].
  destruct (closed (self m)) eqn:Hc.
  - rewrite (Close_again m Hmu Hc). cbn. rewrite Hc.
    rewrite (IsClosed_eq m Hmu). cbn. rewrite Hc. auto 10.
  - rewrite (Close_first_no_chan m Hmu Hc Hnil). cbn.
    rewrite IsClosed_eq by exact Hmu. cbn. auto 10.
Qed.

Lemma close_without_polling_witness :
  (CheckReloadPeriod single_shot_config <= 0)%Z /\
  events_of (Close (state_of (exec_all [op_check; op_GetCertificate None]
                                       (built single_shot_config
                                              rotating_world)))) =
    [EvLock; EvRead f_closed; EvWrite f_closed; EvUnlock] /\
  outcome_of
    (IsClosed
       (state_of
          (Close (state_of (exec_all [op_check; op_GetCertificate None]
                                     (built single_shot_config
                                            rotating_world)))))) = Done true.
Proof.
  assert (Hp : (CheckReloadPeriod single_shot_config <= 0)%Z)
    by (cbn; lia).
  assert (Hnew : NewTlsCertificateLoader single_shot_config
                                         (boot rotating_world) =
                 (Done (Some (self (built single_shot_config rotating_world)),
                        None),
                  sys (built single_shot_config rotating_world),
                  events_of (NewTlsCertificateLoader single_shot_config
                                                     (boot rotating_world))))
    by reflexivity.
  assert (Hops :
    exec_all [op_check; op_GetCertificate None]
             (built single_shot_config rotating_world) =
      (Done tt,
       state_of (exec_all [op_check; op_GetCertificate None]
                          (built single_shot_config rotating_world)),
       events_of (exec_all [op_check; op_GetCertificate None]
                           (built single_shot_config rotating_world))))
    by reflexivity.
  pose proof (@close_without_polling _ _ _ _ _ _ _ _ Hp Hnew Hops)
    as (_ & _ & _ & _ & _ & _ & Hev & _ & _ & Hclosed).
  split; [exact Hp|]. split; [exact Hev | exact Hclosed].
Defined.

(** What [Close] leaves alone, whatever the state it is called in. *)
Lemma Close_frame m :
  config (self (state_of (Close m))) = config (self m) /\
  certificate (self (state_of (Close m))) = certificate (self m) /\
  certModTime (self (state_of (Close m))) = certModTime (self m) /\
  keyModTime (self (state_of (Close m))) = keyModTime (self m) /\
  mu (self (state_of (Close m))) = mu (self m) /\
  sys (state_of (Close m)) = sys m /\
  count_sends (events_of (Close m)) <= 1.
Proof.
  destruct m as [[cfg b c ch p ct kt] s].
  unfold Close, bind, mu_Lock, mu_Unlock, rd, wr, get_closeChan, ret,
    closeChan_send.
  destruct b; cbn -[Nat.ltb]; [auto 10|].
  destruct c, ch as [[cap len]|]; cbn -[Nat.ltb]; auto 10.
  destruct (len <? cap); cbn; auto 10.
Qed.

(** C10: [Close] leaves the configuration, the published pointer, both
    stored modification times, the heap and the rest of the process as they
    are, and sends at most one signal; [GetCertificate] returns after
    [Close] what it returned before. *)
Theorem close_changes_only_the_flag m :
  config (self (state_of (Close m))) = config (self m) /\
  certificate (self (state_of (Close m))) = certificate (self m) /\
  certModTime (self (state_of (Close m))) = certModTime (self m) /\
  keyModTime (self (state_of (Close m))) = keyModTime (self m) /\
  sys (state_of (Close m)) = sys m /\
  count_sends (events_of (Close m)) <= 1 /\
  (forall hello hello',
     outcome_of (GetCertificate hello' (state_of (Close m))) =
     outcome_of (GetCertificate hello m)) /\
  (mu (self m) = false ->
   forall hello,
     outcome_of (GetCertificate hello m) = Done (certificate (self m), None) /\
     outcome_of (GetCertificate hello (state_of (Close m))) =
       Done (certificate (self m), None)).
Proof.
  pose proof (Close_frame m) as (Hcfg & Hp & Hct & Hkt & Hmu & Hsys & Hs).
  repeat (split; [assumption|]).
  split.
  - intros hello hello'.
    destruct (mu (self m)) eqn:Hm.
    + unfold GetCertificate, bind, mu_Lock. rewrite Hmu, Hm. reflexivity.
    + rewrite !GetCertificate_eq by congruence. cbn. rewrite Hp. reflexivity.
  - intros Hm hello.
    rewrite !GetCertificate_eq by congruence. cbn. rewrite Hp. auto.
Qed.

Lemma close_changes_only_the_flag_witness :
  mu (self (built polling_config still_world)) = false /\
  outcome_of (GetCertificate None (built polling_config still_world)) =
    Done (Some 0, None) /\
  outcome_of (GetCertificate None
                (state_of (Close (built polling_config still_world)))) =
    Done (Some 0, None).
Proof.
  assert (Hm : mu (self (built polling_config still_world)) = false)
    by reflexivity.
  pose proof (close_changes_only_the_flag (built polling_config still_world))
    as (_ & _ & _ & _ & _ & _ & _ & H).
  split; [exact Hm|]. exact (H Hm None).
Defined.

(** ** The mutex and the readers *)

Lemma nth_error_set_nth_eq {A} (l : list A) : forall t x y,
  nth_error l t = Some y -> nth_error (set_nth t x l) t = Some x.
Proof.
  induction l as [|a l IH]; intros [|t] x y H; cbn in *; try discriminate.
  - reflexivity.
  - eapply IH; eassumption.
Qed.

Lemma nth_error_set_nth_neq {A} (l : list A) : forall t t' x,
  t <> t' -> nth_error (set_nth t x l) t' = nth_error l t'.
Proof.
  induction l as [|a l IH]; intros [|t] [|t'] x H; cbn; try reflexivity.
  - congruence.
  - apply IH. congruence.
Qed.

Lemma holds_iff t h : holds t h = true <-> h = Some t.
Proof.
  unfold holds. destruct h as [t'|]; [|split; discriminate].
  rewrite Nat.eqb_eq. split; congruence.
Qed.

(** A thread that holds the mutex has at most [k] field accesses left
    before its [EvUnlock]. *)
Lemma scoped_held_shape n : forall todo k,
  scoped n (Some k) todo = true ->
  exists acc rest,
    todo = acc ++ EvUnlock :: rest /\
    length acc <= k /\
    forallb is_access acc = true /\
    scoped n None rest = true.
Proof.
  induction todo as [|e todo IH]; intros k H; [discriminate|].
  destruct e; cbn in H; try (destruct k; discriminate).
  - (* Unlock *)
    exists [], todo. cbn. repeat split; [lia | exact H].
  - (* a read *)
    destruct k as [|k']; [discriminate|].
    destruct (IH _ H) as (acc & rest & -> & Hlen & Hacc & Hrest).
    exists (EvRead f :: acc), rest. cbn. rewrite Hacc.
    repeat split; [lia | assumption].
  - (* a write *)
    destruct k as [|k']; [discriminate|].
    destruct (IH _ H) as (acc & rest & -> & Hlen & Hacc & Hrest).
    exists (EvWrite f :: acc), rest. cbn. rewrite Hacc.
    repeat split; [lia | assumption].
Qed.

(** An event that is neither [EvLock] nor [EvUnlock] uses up one access
    when the mutex is held, and is free otherwise. *)
Lemma scoped_plain n e rest :
  e <> EvLock -> e <> EvUnlock ->
  scoped n None (e :: rest) = scoped n None rest /\
  (forall k, scoped n (Some k) (e :: rest) = true ->
             exists k', k = S k' /\ scoped n (Some k') rest = true).
Proof.
  intros Hl Hu. destruct e; try congruence; cbn; (split; [reflexivity|]);
    intros [|k'] H; try discriminate; eauto.
Qed.

(** One step of the scheduler keeps every thread within its bounds. *)
Lemma step_thread_ok n t st st' :
  pool_ok n st ->
  step_thread t st = Some st' ->
  pool_ok n st'.
Proof.
  intros Hok Hstep. unfold step_thread in Hstep.
  destruct (nth_error (pool st) t) as [[|e rest]|] eqn:Ht; try discriminate.
  pose proof (Hok _ _ Ht) as Hme. unfold thread_ok in Hme.
  assert (Hothers : forall h',
             (forall t', t' <> t -> holds t' h' = holds t' (holder st)) ->
             forall t' todo,
               t' <> t ->
               nth_error (set_nth t rest (pool st)) t' = Some todo ->
               thread_ok n h' t' todo).
  { intros h' Hh t' todo Hne Hn.
    rewrite nth_error_set_nth_neq in Hn by congruence.
    unfold thread_ok. rewrite Hh by exact Hne. apply (Hok _ _ Hn). }
  assert (Hmine : forall todo,
             nth_error (set_nth t rest (pool st)) t = Some todo ->
             todo = rest).
  { intros todo Hn.
    rewrite (nth_error_set_nth_eq _ _ rest Ht) in Hn. congruence. }
  assert (Hplain : e <> EvLock -> e <> EvUnlock ->
                   Some (mkThreads (holder st) (set_nth t rest (pool st)))
                     = Some st' ->
                   pool_ok n st').
  { intros Hl Hu Heq. injection Heq as <-.
    destruct (scoped_plain n rest Hl Hu) as [Hfree Hheld].
    intros t' todo Hn. cbn in Hn |- *.
    destruct (Nat.eq_dec t' t) as [-> | Hne].
    - rewrite (Hmine _ Hn). unfold thread_ok.
      destruct (holds t (holder st)).
      + destruct Hme as (k & Hk & Hs).
        destruct (Hheld _ Hs) as (k' & -> & Hs').
        exists k'. split; [lia | exact Hs'].
      + rewrite <- Hfree. exact Hme.
    - apply Hothers; auto. }
  destruct e; try (apply Hplain; [discriminate | discriminate | exact Hstep]).
  - (* Lock *)
    destruct (holder st) as [h|] eqn:Hh; [discriminate|].
    injection Hstep as <-. intros t' todo Hn. cbn in Hn |- *.
    destruct (Nat.eq_dec t' t) as [-> | Hne].
    + rewrite (Hmine _ Hn). unfold thread_ok.
      unfold holds. rewrite Nat.eqb_refl.
      cbn in Hme. exists n. split; [lia | exact Hme].
    + apply Hothers; [|exact Hne | exact Hn].
      intros t'' Hne'. cbn. apply Nat.eqb_neq. exact Hne'.
  - (* Unlock *)
    destruct (holds t (holder st)) eqn:Hh; [|discriminate].
    apply holds_iff in Hh.
    injection Hstep as <-. intros t' todo Hn. cbn [holder pool] in Hn |- *.
    destruct (Nat.eq_dec t' t) as [-> | Hne].
    + rewrite (Hmine _ Hn). unfold thread_ok. cbn.
      destruct Hme as (k & Hk & Hs). cbn in Hs. exact Hs.
    + apply Hothers; [|exact Hne | exact Hn].
      intros t'' Hne'. rewrite Hh. cbn. symmetry. apply Nat.eqb_neq. exact Hne'.
Qed.

Lemma run_schedule_ok n picks : forall st st',
  pool_ok n st ->
  run_schedule picks st = Some st' ->
  pool_ok n st'.
Proof.
  induction picks as [|t picks IH]; intros st st' Hok H; cbn in H.
  - injection H as <-. exact Hok.
  - destruct (step_thread t st) as [st1|] eqn:Hs; [|discriminate].
    eapply IH; [|exact H]. eapply step_thread_ok; eassumption.
Qed.

(** Whoever holds the mutex is one of the threads. *)
Lemma holder_in_pool picks : forall st0 st1,
  (forall o, holder st0 = Some o ->
             exists todo, nth_error (pool st0) o = Some todo) ->
  run_schedule picks st0 = Some st1 ->
  forall o, holder st1 = Some o ->
            exists todo, nth_error (pool st1) o = Some todo.
Proof.
  induction picks as [|p picks IH]; intros st0 st1 Hh0 Hr o Ho; cbn in Hr.
  - injection Hr as <-. auto.
  - destruct (step_thread p st0) as [st2|] eqn:Hs; [|discriminate].
    apply (IH st2 st1); auto.
    clear IH Hr Ho o. intros o Ho.
    unfold step_thread in Hs.
    destruct (nth_error (pool st0) p) as [[|e rest]|] eqn:Hp; try discriminate.
    assert (Hkeep : forall o',
               (exists todo, nth_error (pool st0) o' = Some todo) ->
               exists todo,
                 nth_error (set_nth p rest (pool st0)) o' = Some todo).
    { intros o' (todo & Hn).
      destruct (Nat.eq_dec p o') as [<- | Hd].
      - exists rest. eapply nth_error_set_nth_eq; eassumption.
      - exists todo. rewrite nth_error_set_nth_neq by exact Hd. exact Hn. }
    destruct e;
      try (injection Hs as <-; cbn in Ho |- *; apply Hkeep; auto; fail).
    + destruct (holder st0); [discriminate|].
      injection Hs as <-. cbn in Ho |- *. injection Ho as <-.
      apply Hkeep. eauto.
    + destruct (holds p (holder st0)); [|discriminate].
      injection Hs as <-. cbn in Ho. discriminate.
Qed.

(** A cycle takes the mutex at most once, for the store of the pointer. *)
Lemma check_events_scoped m :
  scoped 1 None (events_of (check m)) = true /\
  (critical_sections (events_of (check m)) = [] \/
   critical_sections (events_of (check m)) = [[EvWrite f_certificate]]).
Proof.
  check_paths m; cbn [events_of snd];
    unfold probe_events, compare_events, notify_error, notify_reload;
    repeat match goal with
           | |- context [if ?c then _ else _] => destruct c
           end;
    try destruct (OnError (config (self m)));
    try destruct (OnReload (config (self m)));
    cbn; auto.
Qed.

Lemma GetCertificate_events hello m :
  events_of (GetCertificate hello m) =
    if mu (self m) then [] else [EvLock; EvRead f_certificate; EvUnlock].
Proof.
  unfold GetCertificate, bind, mu_Lock, mu_Unlock, rd, ret.
  destruct (mu (self m)); reflexivity.
Qed.

(** Before anything runs, every thread is within its bounds. *)
Lemma cycle_and_readers_ok m hellos : pool_ok 1 (cycle_and_readers m hellos).
Proof.
  intros t todo Hn. unfold thread_ok. cbn in Hn |- *.
  destruct t as [|t]; cbn in Hn.
  - injection Hn as <-. apply check_events_scoped.
  - apply nth_error_In in Hn. apply in_map_iff in Hn.
    destruct Hn as (hello & <- & _).
    rewrite GetCertificate_events. destruct (mu (self m)); reflexivity.
Qed.

(** C7: the mutex is held only around the copy of the pointer in
    [GetCertificate] and around its store in [check]; no stat, load,
    callback or send happens under it.  So, however a check cycle and any
    number of [GetCertificate] calls are interleaved, a thread that waits
    for the mutex waits for a holder that has at most one field access left
    before it unlocks. *)
Theorem readers_never_wait_for_io m hellos picks st :
  mu (self m) = false ->
  run_schedule picks (cycle_and_readers m hellos) = Some st ->
  (critical_sections (events_of (check m)) = [] \/
   critical_sections (events_of (check m)) = [[EvWrite f_certificate]]) /\
  (forall hello,
     critical_sections (events_of (GetCertificate hello m)) =
       [[EvRead f_certificate]]) /\
  (forall t owner,
     waits_for t owner st ->
     exists acc rest,
       nth_error (pool st) owner = Some (acc ++ EvUnlock :: rest) /\
       length acc <= 1 /\
       forallb is_access acc = true /\
       forallb (fun e => negb (is_io e)) acc = true).
Proof.
  intros Hmu Hrun.
  split; [apply check_events_scoped|]. split.
  { intros hello. rewrite GetCertificate_events, Hmu. reflexivity. }
  intros t owner (Hne & Hholder & rest_t & Ht).
  pose proof (run_schedule_ok picks (cycle_and_readers_ok m hellos) Hrun) as Hok.
  assert (Hfree : forall o, holder (cycle_and_readers m hellos) = Some o ->
                 exists todo,
                   nth_error (pool (cycle_and_readers m hellos)) o = Some todo)
    by (cbn; discriminate).
  destruct (@holder_in_pool picks _ _ Hfree Hrun _ Hholder) as (todo & Hn).
  pose proof (Hok _ _ Hn) as Hthread. unfold thread_ok in Hthread.
  rewrite Hholder in Hthread. cbn in Hthread. rewrite Nat.eqb_refl in Hthread.
  destruct Hthread as (k & Hk & Hs).
  destruct (scoped_held_shape _ _ _ Hs) as (acc & rest & -> & Hl & Hacc & _).
  exists acc, rest. split; [exact Hn|]. split; [lia|]. split; [exact Hacc|].
  clear - Hacc. induction acc as [|e acc IH]; [reflexivity|].
  cbn in Hacc |- *. apply andb_prop in Hacc. destruct Hacc as [He Hacc].
  rewrite (IH Hacc). destruct e; try discriminate; reflexivity.
Qed.

Lemma readers_never_wait_for_io_witness :
  mu (self (built polling_config rotating_world)) = false /\
  run_schedule [2; 2; 2; 0; 0; 0; 0; 0; 0; 0]
    (cycle_and_readers (built polling_config rotating_world)
                       [None; Some (mkClientHelloInfo "example.org")]) =
    Some (mkThreads (Some 0)
            [[EvWrite f_certificate; EvUnlock; EvOnReload 7];
             [EvLock; EvRead f_certificate; EvUnlock];
             []]) /\
  waits_for 1 0
    (mkThreads (Some 0)
       [[EvWrite f_certificate; EvUnlock; EvOnReload 7];
        [EvLock; EvRead f_certificate; EvUnlock];
        []]) /\
  exists acc rest,
    nth_error [[EvWrite f_certificate; EvUnlock; EvOnReload 7];
               [EvLock; EvRead f_certificate; EvUnlock];
               []] 0 = Some (acc ++ EvUnlock :: rest) /\
    length acc <= 1.
Proof.
  assert (Hmu : mu (self (built polling_config rotating_world)) = false)
    by reflexivity.
  assert (Hrun :
    run_schedule [2; 2; 2; 0; 0; 0; 0; 0; 0; 0]
      (cycle_and_readers (built polling_config rotating_world)
                         [None; Some (mkClientHelloInfo "example.org")]) =
      Some (mkThreads (Some 0)
              [[EvWrite f_certificate; EvUnlock; EvOnReload 7];
               [EvLock; EvRead f_certificate; EvUnlock];
               []]))
    by reflexivity.
  assert (Hw : waits_for 1 0
                 (mkThreads (Some 0)
                    [[EvWrite f_certificate; EvUnlock; EvOnReload 7];
                     [EvLock; EvRead f_certificate; EvUnlock];
                     []])).
  { split; [discriminate|]. split; [reflexivity|].
    exists [EvRead f_certificate; EvUnlock]. reflexivity. }
  destruct (@readers_never_wait_for_io _ _ _ _ Hmu Hrun) as (_ & _ & H).
  destruct (H 1 0 Hw) as (acc & rest & Hn & Hl & _).
  split; [exact Hmu|]. split; [exact Hrun|]. split; [exact Hw|].
  exists acc, rest. split; [exact Hn | exact Hl].
Defined.

Lemma missing_callbacks_are_skipped_witness :
  mu (self (built silent_config corrupt_world)) = false /\
  OnError (config (self (built silent_config corrupt_world))) = None /\
  outcome_of (check (built silent_config corrupt_world)) = Done tt /\
  on_error_calls (events_of (check (built silent_config corrupt_world))) = [].
Proof.
  assert (Hmu : mu (self (built silent_config corrupt_world)) = false)
    by reflexivity.
  assert (Hnil : OnError (config (self (built silent_config corrupt_world)))
                 = None) by reflexivity.
  destruct (missing_callbacks_are_skipped (built silent_config corrupt_world))
    as (_ & Hret & Herr & _).
  split; [exact Hmu|]. split; [exact Hnil|].
  split; [exact (Hret Hmu) | exact (Herr Hnil)].
Defined.

(** ** Failed cycles, read off the events *)

Lemma first_io_error_app e1 e2 :
  first_io_error (e1 ++ e2) =
    match first_io_error e1 with
    | Some err => Some err
    | None => first_io_error e2
    end.
Proof.
  induction e1 as [|e e1 IH]; [reflexivity|].
  cbn. destruct (io_error e); [reflexivity | exact IH].
Qed.

Lemma first_io_error_probe l statCert statKey :
  first_io_error (probe_events l statCert statKey) = None.
Proof.
  unfold probe_events, compare_events.
  destruct (UnixMilli (ModTime statKey) =? UnixMilli (keyModTime l))%Z;
    reflexivity.
Qed.

Lemma first_io_error_notify_error cfg err :
  first_io_error (notify_error cfg err) = None.
Proof. unfold notify_error. destruct (OnError cfg); reflexivity. Qed.

Lemma first_io_error_notify_reload cfg :
  first_io_error (notify_reload cfg) = None.
Proof. unfold notify_reload. destruct (OnReload cfg); reflexivity. Qed.

(** A cycle fails with [err] exactly when [err] is the error one of its
    I/O calls returned. *)
Lemma cycle_fails_iff m err :
  cycle_fails m err <-> first_io_error (events_of (check m)) = Some err.
Proof.
  unfold cycle_fails.
  check_paths m; cbn [events_of snd];
    rewrite ?first_io_error_app, ?first_io_error_probe;
    cbn [first_io_error io_error];
    rewrite ?first_io_error_notify_error, ?first_io_error_notify_reload;
    (split;
     [ intros [H | [(sc & H1 & H2) | (sc & sk & H1 & H2 & Hu & H3)]];
       congruence
     | intros H; try discriminate; injection H as <-; eauto 10 ]).
Qed.

(* ================================================================== *)
(** * The goroutine and sequences of cycles *)

(** ** Polling files that do not change *)

Lemma steady_later m n :
  steady m -> steady (mkMachine (self m) (later n (sys m))).
Proof.
  intros H t Ht. cbn in Ht |- *. apply H. lia.
Qed.

Lemma steady_check m :
  steady m ->
  check m =
    (Done tt, mkMachine (self m) (later 2 (sys m)),
     EvStat (CertificatePath (config (self m)))
            (seen_cert m)
       :: EvStat (KeyPath (config (self m))) (seen_key m)
       :: [EvRead f_keyModTime; EvRead f_certModTime]).
Proof.
  intros H.
  destruct (H (tick (sys m)) (Nat.le_refl _)) as [(sc & H1 & Hc) _].
  destruct (H (S (tick (sys m))) (Nat.le_succ_diag_r _)) as [_ (sk & H2 & Hk)].
  assert (Hu : unchanged (self m) sc sk = true) by (apply unchanged_iff; auto).
  rewrite (@check_unchanged m sc sk H1 H2 Hu).
  unfold probe_events, compare_events, seen_cert, seen_key.
  rewrite H1, H2. apply Z.eqb_eq in Hk. rewrite Hk. reflexivity.
Qed.

(** X1: While the files keep the modification times the loader has stored (to
    the millisecond), any number of timer ticks of the goroutine's loop
    ends normally, makes two stats per tick and nothing else: no load, no
    callback, no allocation, and the loader is left as it was. *)
Theorem idle_polling_is_silent n : forall m,
  steady m ->
  outcome_of (run (repeat case_timer n) m) = Done tt /\
  self (state_of (run (repeat case_timer n) m)) = self m /\
  heap (sys (state_of (run (repeat case_timer n) m))) = heap (sys m) /\
  tick (sys (state_of (run (repeat case_timer n) m))) = 2 * n + tick (sys m) /\
  load_attempts (events_of (run (repeat case_timer n) m)) = 0 /\
  on_error_calls (events_of (run (repeat case_timer n) m)) = [] /\
  on_reload_calls (events_of (run (repeat case_timer n) m)) = [].
Proof.
  induction n as [|n IH]; intros m Hs.
  - cbn. auto 10.
  - cbn [repeat run]. unfold bind. rewrite (steady_check Hs).
    specialize (IH _ (steady_later 2 Hs)).
    destruct (run (repeat case_timer n)
                  (mkMachine (self m) (later 2 (sys m))))
      as [[r m'] evs].
    cbn in IH |- *. destruct IH as (-> & -> & -> & -> & -> & -> & ->).
    repeat split. lia.
Qed.

Lemma idle_polling_is_silent_witness :
  steady (built polling_config still_world) /\
  self (state_of (run (repeat case_timer 3)
                      (built polling_config still_world))) =
    self (built polling_config still_world) /\
  on_reload_calls (events_of (run (repeat case_timer 3)
                                  (built polling_config still_world))) = [].
Proof.
  assert (Hs : steady (built polling_config still_world)).
  { intros t Ht. split; exists (mkFileInfo early); split; reflexivity. }
  destruct (idle_polling_is_silent 3 Hs) as (_ & Hself & _ & _ & _ & _ & Hr).
  split; [exact Hs|]. split; [exact Hself | exact Hr].
Defined.

(** ** The end of the loop *)

(** X2: Once [select] takes the receive from [closeChan], [run] returns: the
    cases that would follow are never taken, so the loop does what it does
    when the receive is the last case. *)
Theorem run_stops_at_signal before after : forall m,
  run (before ++ case_closeChan :: after) m =
  run (before ++ [case_closeChan]) m.
Proof.
  induction before as [|c before IH]; intros m; [reflexivity|].
  destruct c; cbn [app run]; [|reflexivity].
  unfold bind. destruct (check m) as [[[[] | msg |] m1] e1]; try reflexivity.
  rewrite IH. reflexivity.
Qed.

(** ** The cancellation signal *)

Lemma count_recvs_app e1 e2 :
  count_recvs (e1 ++ e2) = count_recvs e1 + count_recvs e2.
Proof.
  induction e1 as [|e e1 IH]; [reflexivity|].
  destruct e; cbn; rewrite IH; reflexivity.
Qed.

(** A cycle neither receives nor starts a goroutine. *)
Lemma check_no_recv_no_go m :
  count_recvs (events_of (check m)) = 0 /\
  count_go (events_of (check m)) = 0.
Proof.
  check_paths m; cbn [events_of snd];
    unfold probe_events, compare_events, notify_error, notify_reload;
    repeat match goal with
           | |- context [if ?c then _ else _] => destruct c
           end;
    try destruct (OnError (config (self m)));
    try destruct (OnReload (config (self m)));
    cbn; auto.
Qed.

(** Items are neither lost nor made up: what is queued after an operation
    is what was queued before, plus the sends, minus the receives. *)
Lemma exec_queue o m m' evs :
  loader_inv m ->
  exec o m = (Done tt, m', evs) ->
  queued (self m') + count_recvs evs = queued (self m) + count_sends evs.
Proof.
  intros Hinv H. pose proof Hinv as (Hmu & Hk & Hch).
  destruct o; cbn [exec] in H.
  - pose proof (check_frame m) as (_ & _ & Hc & Hs).
    pose proof (check_no_recv_no_go m) as (Hr & _).
    rewrite H in Hc, Hs, Hr. cbn in Hc, Hs, Hr.
    unfold queued. rewrite Hc, Hs, Hr. reflexivity.
  - destruct (closed (self m)) eqn:Hc.
    + rewrite (Close_again m Hmu Hc) in H. injection H as <- <-. reflexivity.
    + destruct (closeChan (self m)) as [c|] eqn:Hcc.
      * unfold chan_ok in Hch. rewrite Hcc in Hch. destruct Hch as [Hcap Hlen].
        specialize (Hlen Hc).
        assert (Hroom : chanLen c < chanCap c) by lia.
        rewrite (Close_first_chan m Hmu Hc Hcc Hroom) in H.
        injection H as <- <-. unfold queued. cbn. rewrite Hcc. lia.
      * rewrite (Close_first_no_chan m Hmu Hc Hcc) in H.
        injection H as <- <-. unfold queued. cbn. rewrite Hcc. reflexivity.
  - unfold bind in H. rewrite (IsClosed_eq m Hmu) in H. cbn in H.
    injection H as <- <-. reflexivity.
  - unfold bind in H. rewrite (GetCertificate_eq hello m Hmu) in H. cbn in H.
    injection H as <- <-. reflexivity.
  - unfold closeChan_recv in H.
    destruct (closeChan (self m)) as [c|] eqn:Hcc; [|discriminate].
    destruct (chanLen c) as [|n] eqn:Hn; [discriminate|].
    injection H as <- <-. unfold queued. cbn. rewrite Hcc, Hn. lia.
Qed.

Lemma exec_all_queue ops : forall m m' evs,
  loader_inv m ->
  exec_all ops m = (Done tt, m', evs) ->
  queued (self m') + count_recvs evs = queued (self m) + count_sends evs.
Proof.
  induction ops as [|o rest IH]; intros m m' evs Hinv H.
  - cbn in H. injection H as <- <-. reflexivity.
  - cbn [exec_all] in H.
    apply bind_Done in H. destruct H as ([] & m1 & e1 & e2 & Ho & Hr & ->).
    pose proof (@exec_queue o m m1 e1 Hinv Ho) as H1.
    assert (Hinv1 : loader_inv m1)
      by (eapply exec_effect; eassumption).
    pose proof (IH _ _ _ Hinv1 Hr) as H2.
    rewrite count_recvs_app, count_sends_app. lia.
Qed.

(** X3: Over any sequence of operations on a new loader, the goroutine takes
    no more signals than [Close] has sent, hence at most one, and none as
    long as [Close] has not been called. *)
Theorem signal_taken_only_after_close cfg s0 loader s1 e0 ops m evs :
  NewTlsCertificateLoader cfg s0 = (Done (Some loader, None), s1, e0) ->
  exec_all ops (mkMachine loader s1) = (Done tt, m, evs) ->
  count_recvs evs <= count_sends evs /\
  count_recvs evs <= 1 /\
  queued (self m) + count_recvs evs = count_sends evs /\
  (existsb is_Close ops = false -> count_recvs evs = 0).
Proof.
  intros Hnew Hops.
  destruct (@New_establishes_inv _ _ _ _ _ Hnew) as (Hinv0 & _ & Hopen & Hchan).
  pose proof (@exec_all_queue ops _ m evs Hinv0 Hops) as Hq.
  destruct (@exec_all_effect ops _ m evs Hinv0 Hops) as (_ & _ & _ & _ & Hs).
  cbn [self] in Hq, Hs.
  assert (Hq0 : queued loader = 0).
  { unfold queued. rewrite Hchan.
    destruct (CheckReloadPeriod cfg >? 0)%Z; reflexivity. }
  rewrite Hq0 in Hq. cbn in Hq.
  assert (Hle : count_sends evs <= 1).
  { rewrite Hs. destruct (_ && _); lia. }
  split; [lia|]. split; [lia|]. split; [lia|].
  intros Hno. rewrite Hno in Hs. cbn in Hs. lia.
Qed.

Lemma signal_taken_only_after_close_witness :
  exec_all [op_check; op_Close; op_recv; op_Close]
           (built polling_config still_world) =
    (Done tt,
     state_of (exec_all [op_check; op_Close; op_recv; op_Close]
                        (built polling_config still_world)),
     events_of (exec_all [op_check; op_Close; op_recv; op_Close]
                         (built polling_config still_world))) /\
  count_recvs (events_of (exec_all [op_check; op_Close; op_recv; op_Close]
                                   (built polling_config still_world))) <= 1.
Proof.
  assert (Hops :
    exec_all [op_check; op_Close; op_recv; op_Close]
             (built polling_config still_world) =
      (Done tt,
       state_of (exec_all [op_check; op_Close; op_recv; op_Close]
                          (built polling_config still_world)),
       events_of (exec_all [op_check; op_Close; op_recv; op_Close]
                           (built polling_config still_world))))
    by reflexivity.
  assert (Hnew : NewTlsCertificateLoader polling_config (boot still_world) =
                 (Done (Some (self (built polling_config still_world)), None),
                  sys (built polling_config still_world),
                  events_of (NewTlsCertificateLoader polling_config
                                                     (boot still_world))))
    by reflexivity.
  pose proof (@signal_taken_only_after_close _ _ _ _ _ _ _ _ Hnew Hops)
    as (_ & Hone & _).
  split; [exact Hops | exact Hone].
Defined.

(** X4: As long as the loader is open, the goroutine cannot leave its loop:
    the receive from [closeChan] blocks, on a nil channel as on an empty
    one, and nothing is changed by the attempt. *)
Theorem loop_cannot_end_before_close m after :
  reachable m ->
  closed (self m) = false ->
  run (case_closeChan :: after) m = (Blocked, m, []).
Proof.
  intros Hr Hopen. destruct (@reachable_inv _ Hr) as (_ & _ & Hch).
  cbn [run]. unfold closeChan_recv. unfold chan_ok in Hch.
  destruct (closeChan (self m)) as [c|]; [|reflexivity].
  destruct Hch as [_ Hlen]. rewrite (Hlen Hopen). reflexivity.
Qed.

Lemma loop_cannot_end_before_close_witness :
  reachable (built polling_config still_world) /\
  closed (self (built polling_config still_world)) = false /\
  run [case_closeChan; case_timer] (built polling_config still_world) =
    (Blocked, built polling_config still_world, []).
Proof.
  assert (Hr : reachable (built polling_config still_world))
    by (eapply built_reachable; reflexivity).
  assert (Ho : closed (self (built polling_config still_world)) = false)
    by reflexivity.
  split; [exact Hr|]. split; [exact Ho|].
  apply (@loop_cannot_end_before_close _ [case_timer] Hr Ho).
Defined.

(** X5: The first [Close] of a polling loader queues the signal; the goroutine
    then takes it and returns, whatever cases would follow; after that the
    channel is empty again, a further receive would block, and the
    published pointer is the one from before [Close]. *)
Theorem loop_ends_after_close m c after :
  reachable m ->
  closed (self m) = false ->
  closeChan (self m) = Some c ->
  queued (self (state_of (Close m))) = 1 /\
  outcome_of (run (case_closeChan :: after) (state_of (Close m))) = Done tt /\
  events_of (run (case_closeChan :: after) (state_of (Close m))) = [EvRecv] /\
  queued (self (state_of (run (case_closeChan :: after)
                              (state_of (Close m))))) = 0 /\
  closed (self (state_of (run (case_closeChan :: after)
                              (state_of (Close m))))) = true /\
  certificate (self (state_of (run (case_closeChan :: after)
                                   (state_of (Close m))))) =
    certificate (self m) /\
  outcome_of (closeChan_recv
                (state_of (run (case_closeChan :: after)
                               (state_of (Close m))))) = Blocked.
Proof.
  intros Hr Hopen Hcc. destruct (@reachable_inv _ Hr) as (Hmu & _ & Hch).
  unfold chan_ok in Hch. rewrite Hcc in Hch. destruct Hch as [Hcap Hlen].
  specialize (Hlen Hopen).
  assert (Hroom : chanLen c < chanCap c) by lia.
  rewrite (Close_first_chan m Hmu Hopen Hcc Hroom).
  cbn [run state_of fst snd]. unfold closeChan_recv, queued. cbn.
  rewrite Hlen. cbn. auto 10.
Qed.

Lemma loop_ends_after_close_witness :
  reachable (built polling_config still_world) /\
  closed (self (built polling_config still_world)) = false /\
  closeChan (self (built polling_config still_world)) = Some (mkChan 1 0) /\
  events_of (run [case_closeChan; case_timer]
                 (state_of (Close (built polling_config still_world)))) =
    [EvRecv].
Proof.
  assert (Hr : reachable (built polling_config still_world))
    by (eapply built_reachable; reflexivity).
  assert (Ho : closed (self (built polling_config still_world)) = false)
    by reflexivity.
  assert (Hc : closeChan (self (built polling_config still_world))
               = Some (mkChan 1 0)) by reflexivity.
  destruct (@loop_ends_after_close _ _ [case_timer] Hr Ho Hc)
    as (_ & _ & Hev & _).
  split; [exact Hr|]. split; [exact Ho|]. split; [exact Hc | exact Hev].
Defined.

(** ** One cycle after another *)

(** What a successful reload leaves behind. *)
Lemma reload_publishes m statCert statKey pair :
  mu (self m) = false ->
  cycle_reloads m statCert statKey pair ->
  deref (heap (sys (state_of (check m))))
        (certificate (self (state_of (check m)))) = Some pair /\
  on_reload_calls (events_of (check m)) =
    match OnReload (config (self m)) with
    | Some f => [f]
    | None => []
    end /\
  certificate (self (state_of (check m))) = Some (length (heap (sys m))) /\
  heap (sys (state_of (check m))) = heap (sys m) ++ [pair] /\
  self (state_of (check m)) =
    reloaded (self m) statCert statKey (Some (length (heap (sys m)))).
Proof.
  intros Hmu (H1 & H2 & Hu & H3).
  rewrite (check_reloads m Hmu H1 H2 Hu H3). count_events.
  cbn [deref reloaded certificate].
  rewrite nth_error_app2 by lia. rewrite Nat.sub_diag. auto.
Qed.

(** X6: A failed load is tried again: when a cycle has seen a change and the
    load has failed, the next cycle that sees the same two times (to the
    millisecond) attempts the load again; if that load succeeds and the
    mutex is free, it publishes the new pair and calls [OnReload]. *)
Theorem failed_load_is_retried m statCert statKey err statCert' statKey' :
  seen_cert m = inr statCert ->
  seen_key m = inr statKey ->
  unchanged (self m) statCert statKey = false ->
  seen_pair m = inl err ->
  seen_cert (state_of (check m)) = inr statCert' ->
  seen_key (state_of (check m)) = inr statKey' ->
  UnixMilli (ModTime statCert') = UnixMilli (ModTime statCert) ->
  UnixMilli (ModTime statKey') = UnixMilli (ModTime statKey) ->
  load_attempts (events_of (check (state_of (check m)))) = 1 /\
  (forall pair,
     mu (self m) = false ->
     seen_pair (state_of (check m)) = inr pair ->
     deref (heap (sys (state_of (check (state_of (check m))))))
           (certificate (self (state_of (check (state_of (check m)))))) =
       Some pair /\
     on_reload_calls (events_of (check (state_of (check m)))) =
       match OnReload (config (self m)) with
       | Some f => [f]
       | None => []
       end).
Proof.
  intros H1 H2 Hu H3.
  rewrite (check_load_fails m H1 H2 Hu H3).
  cbn [state_of fst snd]. intros H1' H2' Hc Hk.
  assert (Hu' : unchanged (self (mkMachine (self m) (later 3 (sys m))))
                          statCert' statKey' = false).
  { cbn [self]. apply changed_iff. rewrite Hc, Hk.
    apply changed_iff. exact Hu. }
  split.
  - rewrite (check_load_attempts _ H1' H2'). rewrite Hu'. reflexivity.
  - intros pair Hmu H3'.
    assert (Hr : cycle_reloads (mkMachine (self m) (later 3 (sys m)))
                               statCert' statKey' pair)
      by (repeat split; assumption).
    destruct (@reload_publishes (mkMachine (self m) (later 3 (sys m)))
                                _ _ _ Hmu Hr) as (Hd & Hcalls & _).
    split; [exact Hd | exact Hcalls].
Qed.

Lemma failed_load_is_retried_witness :
  seen_pair (built polling_config recovering_world) =
    inl "tls: failed to find any PEM data in certificate input" /\
  load_attempts
    (events_of (check (state_of (check (built polling_config
                                              recovering_world))))) = 1 /\
  deref
    (heap (sys (state_of (check (state_of (check (built polling_config
                                                        recovering_world)))))))
    (certificate
       (self (state_of (check (state_of (check (built polling_config
                                                      recovering_world)))))))
    = Some pair_two.
Proof.
  pose proof (@failed_load_is_retried
                (built polling_config recovering_world)
                (mkFileInfo late) (mkFileInfo late)
                "tls: failed to find any PEM data in certificate input"
                (mkFileInfo late) (mkFileInfo late)
                eq_refl eq_refl eq_refl eq_refl eq_refl eq_refl
                eq_refl eq_refl) as (Hone & Hnext).
  split; [reflexivity|]. split; [exact Hone|].
  apply (Hnext pair_two eq_refl eq_refl).
Defined.

(** The cycle after a successful reload, on the int64 values of
    [UnixMilli]: it attempts a load exactly when one of the values it sees
    differs from the value of the time the reloading cycle saw in its stat;
    when both agree it calls no callback and leaves the loader as the
    reload left it. *)
Lemma next_cycle_after_reload m statCert statKey pair statCert' statKey' :
  mu (self m) = false ->
  cycle_reloads m statCert statKey pair ->
  seen_cert (state_of (check m)) = inr statCert' ->
  seen_key (state_of (check m)) = inr statKey' ->
  (load_attempts (events_of (check (state_of (check m)))) = 1 <->
     UnixMilli (ModTime statCert') <> UnixMilli (ModTime statCert) \/
     UnixMilli (ModTime statKey') <> UnixMilli (ModTime statKey)) /\
  (UnixMilli (ModTime statCert') = UnixMilli (ModTime statCert) ->
   UnixMilli (ModTime statKey') = UnixMilli (ModTime statKey) ->
     load_attempts (events_of (check (state_of (check m)))) = 0 /\
     on_reload_calls (events_of (check (state_of (check m)))) = [] /\
     on_error_calls (events_of (check (state_of (check m)))) = [] /\
     self (state_of (check (state_of (check m)))) = self (state_of (check m))).
Proof.
  intros Hmu Hr H1' H2'.
  destruct (reload_publishes Hmu Hr) as (_ & _ & _ & _ & Hself).
  rewrite (check_load_attempts _ H1' H2').
  assert (Hiff : unchanged (self (state_of (check m))) statCert' statKey'
                   = false <->
                 UnixMilli (ModTime statCert') <> UnixMilli (ModTime statCert) \/
                 UnixMilli (ModTime statKey') <> UnixMilli (ModTime statKey)).
  { rewrite changed_iff, Hself. reflexivity. }
  split.
  - rewrite <- Hiff.
    destruct (unchanged (self (state_of (check m))) statCert' statKey');
      split; congruence.
  - intros Hc Hk.
    assert (Hu : unchanged (self (state_of (check m))) statCert' statKey'
                 = true).
    { apply unchanged_iff. rewrite Hself. cbn. auto. }
    rewrite Hu. rewrite (check_unchanged _ H1' H2' Hu). count_events. auto.
Qed.

Example next_cycle_after_reload_quiet :
  mu (self (built polling_config rotating_world)) = false /\
  cycle_reloads (built polling_config rotating_world)
                (mkFileInfo late) (mkFileInfo late) pair_two /\
  load_attempts
    (events_of (check (state_of (check (built polling_config
                                              rotating_world))))) = 0.
Proof.
  assert (Hmu : mu (self (built polling_config rotating_world)) = false)
    by reflexivity.
  assert (Hr : cycle_reloads (built polling_config rotating_world)
                 (mkFileInfo late) (mkFileInfo late) pair_two)
    by (repeat split; reflexivity).
  destruct (@next_cycle_after_reload
              (built polling_config rotating_world) _ _ _
              (mkFileInfo late) (mkFileInfo late) Hmu Hr eq_refl eq_refl)
    as (_ & Hquiet).
  split; [exact Hmu|]. split; [exact Hr|].
  apply (Hquiet eq_refl eq_refl).
Defined.

(** ** Pointers handed out to readers *)

(** X8: A reload never reuses the published cell: the pointer a successful
    cycle publishes differs from the one published before, the old cell
    still holds the old pair, and [GetCertificate] returns the new pointer,
    which refers to the pair just loaded. *)
Theorem reload_publishes_a_new_cell m statCert statKey pair hello :
  reachable m ->
  cycle_reloads m statCert statKey pair ->
  certificate (self (state_of (check m))) <> certificate (self m) /\
  deref (heap (sys (state_of (check m)))) (certificate (self m)) =
    deref (heap (sys m)) (certificate (self m)) /\
  deref (heap (sys m)) (certificate (self m)) <> None /\
  outcome_of (GetCertificate hello (state_of (check m))) =
    Done (certificate (self (state_of (check m))), None) /\
  deref (heap (sys (state_of (check m))))
        (certificate (self (state_of (check m)))) = Some pair.
Proof.
  intros Hreach Hr.
  destruct (@reachable_inv _ Hreach) as (Hmu & (a & c & Ha & Hn & _) & _).
  destruct (reload_publishes Hmu Hr) as (Hd & _ & Hp & Hh & Hself).
  assert (Hlt : a < length (heap (sys m)))
    by (apply nth_error_Some; congruence).
  split; [rewrite Hp, Ha; intros H; injection H; lia|].
  split; [rewrite Hh, Ha; cbn; apply nth_error_app1; exact Hlt|].
  split; [rewrite Ha; cbn; congruence|].
  split; [|exact Hd].
  rewrite GetCertificate_eq; [reflexivity|].
  rewrite Hself. reflexivity.
Qed.

Lemma reload_publishes_a_new_cell_witness :
  reachable (built polling_config rotating_world) /\
  cycle_reloads (built polling_config rotating_world)
                (mkFileInfo late) (mkFileInfo late) pair_two /\
  certificate (self (state_of (check (built polling_config rotating_world))))
    <> certificate (self (built polling_config rotating_world)).
Proof.
  assert (Hreach : reachable (built polling_config rotating_world))
    by (eapply built_reachable; reflexivity).
  assert (Hr : cycle_reloads (built polling_config rotating_world)
                 (mkFileInfo late) (mkFileInfo late) pair_two)
    by (repeat split; reflexivity).
  destruct (@reload_publishes_a_new_cell _ _ _ _ None Hreach Hr) as (Hne & _).
  split; [exact Hreach|]. split; [exact Hr | exact Hne].
Defined.

(** Each operation only adds cells to the heap, however it ends. *)
Lemma exec_heap_grows o m :
  exists more, heap (sys (state_of (exec o m))) = heap (sys m) ++ more.
Proof.
  destruct o; cbn [exec].
  - check_paths m; cbn [state_of fst snd sys heap later];
      try (exists []; rewrite app_nil_r; reflexivity).
    eexists. reflexivity.
  - pose proof (Close_frame m) as (_ & _ & _ & _ & _ & Hs & _).
    rewrite Hs. exists []. rewrite app_nil_r. reflexivity.
  - exists []. rewrite app_nil_r.
    destruct m as [[cfg [|] c ch p ct kt] s]; reflexivity.
  - exists []. rewrite app_nil_r.
    destruct m as [[cfg [|] c ch p ct kt] s]; reflexivity.
  - exists []. rewrite app_nil_r. unfold closeChan_recv.
    destruct (closeChan (self m)) as [[cap [|n]]|]; reflexivity.
Qed.

Lemma exec_all_heap_grows ops : forall m,
  exists more, heap (sys (state_of (exec_all ops m))) = heap (sys m) ++ more.
Proof.
  induction ops as [|o rest IH]; intros m.
  - exists []. rewrite app_nil_r. reflexivity.
  - cbn [exec_all]. unfold bind.
    destruct (exec_heap_grows o m) as (more1 & H1).
    destruct (exec o m) as [[[[] | msg |] m1] e1]; cbn in H1;
      try (exists more1; exact H1).
    destruct (IH m1) as (more2 & H2).
    destruct (exec_all rest m1) as [[r m2] e2]. cbn in H2 |- *.
    exists (more1 ++ more2). rewrite H2, H1, app_assoc. reflexivity.
Qed.

(** X9: A pointer a reader has obtained stays good: whatever operations are
    run on the loader afterwards, and however they end, the cell still
    holds the same certificate. *)
Theorem captured_pointer_stays_valid ops m p c :
  deref (heap (sys m)) p = Some c ->
  deref (heap (sys (state_of (exec_all ops m)))) p = Some c.
Proof.
  intros H. destruct (exec_all_heap_grows ops m) as (more & ->).
  destruct p as [a|]; [|discriminate]. cbn in H |- *.
  rewrite nth_error_app1; [exact H|].
  apply nth_error_Some. congruence.
Qed.

Lemma captured_pointer_stays_valid_witness :
  deref (heap (sys (built polling_config rotating_world))) (Some 0) =
    Some pair_one /\
  deref (heap (sys (state_of
                      (exec_all [op_check; op_Close; op_check]
                                (built polling_config rotating_world)))))
        (Some 0) = Some pair_one.
Proof.
  assert (H : deref (heap (sys (built polling_config rotating_world)))
                    (Some 0) = Some pair_one) by reflexivity.
  split; [exact H|].
  apply (@captured_pointer_stays_valid
           [op_check; op_Close; op_check] _ _ _ H).
Defined.

(** X10: A new loader serves the pair it was built from: after a successful
    construction [GetCertificate] returns, with a nil error, a non-nil
    pointer to the pair the initial load returned. *)
Theorem new_loader_serves_initial_pair cfg s statCert statKey pair hello :
  construction_loads cfg s statCert statKey pair ->
  exists loader p,
    outcome_of (NewTlsCertificateLoader cfg s) = Done (Some loader, None) /\
    outcome_of (GetCertificate hello
                  (mkMachine loader
                             (state_of (NewTlsCertificateLoader cfg s)))) =
      Done (Some p, None) /\
    nth_error (heap (state_of (NewTlsCertificateLoader cfg s))) p = Some pair.
Proof.
  intros H. rewrite (New_succeeds H).
  exists (fresh_loader cfg s statCert statKey), (length (heap s)).
  cbn [outcome_of state_of fst snd heap].
  split; [reflexivity|]. split.
  - rewrite GetCertificate_eq by reflexivity. reflexivity.
  - rewrite nth_error_app2 by lia. rewrite Nat.sub_diag. reflexivity.
Qed.

Lemma new_loader_serves_initial_pair_witness :
  construction_loads single_shot_config (boot still_world)
                     (mkFileInfo early) (mkFileInfo early) pair_one /\
  exists loader p,
    outcome_of (NewTlsCertificateLoader single_shot_config (boot still_world))
      = Done (Some loader, None) /\
    outcome_of
      (GetCertificate None
         (mkMachine loader
            (state_of (NewTlsCertificateLoader single_shot_config
                                               (boot still_world))))) =
      Done (Some p, None) /\
    nth_error (heap (state_of (NewTlsCertificateLoader single_shot_config
                                                        (boot still_world))))
              p = Some pair_one.
Proof.
  assert (H : construction_loads single_shot_config (boot still_world)
                (mkFileInfo early) (mkFileInfo early) pair_one)
    by (repeat split; reflexivity).
  split; [exact H|].
  apply (@new_loader_serves_initial_pair _ _ _ _ _ None H).
Defined.

(** ** What a cycle does not depend on, and does not do *)

(** X11: [check] does not look at the closed flag: on a closed loader a cycle
    called by hand stats, compares, loads, publishes and notifies exactly
    as on an open one, and leaves the flag as it found it. *)
Theorem check_ignores_closed b m :
  check (on_self (set_closed b) m) =
    (outcome_of (check m), on_self (set_closed b) (state_of (check m)),
     events_of (check m)).
Proof.
  destruct (seen_cert m) as [e1 | sc] eqn:H1.
  { rewrite (check_stat_cert_fails m H1).
    rewrite (@check_stat_cert_fails (on_self (set_closed b) m) e1 H1).
    reflexivity. }
  destruct (seen_key m) as [e2 | sk] eqn:H2.
  { rewrite (check_stat_key_fails m H1 H2).
    rewrite (@check_stat_key_fails (on_self (set_closed b) m) sc e2 H1 H2).
    reflexivity. }
  destruct (unchanged (self m) sc sk) eqn:Hu.
  { rewrite (check_unchanged m H1 H2 Hu).
    rewrite (@check_unchanged (on_self (set_closed b) m) sc sk H1 H2 Hu).
    reflexivity. }
  destruct (seen_pair m) as [e3 | pair] eqn:H3.
  { rewrite (check_load_fails m H1 H2 Hu H3).
    rewrite (@check_load_fails (on_self (set_closed b) m) sc sk e3
                               H1 H2 Hu H3).
    reflexivity. }
  destruct (mu (self m)) eqn:Hmu.
  - rewrite (check_reload_waits m Hmu H1 H2 Hu H3).
    rewrite (@check_reload_waits (on_self (set_closed b) m) sc sk pair
                                 Hmu H1 H2 Hu H3).
    reflexivity.
  - rewrite (check_reloads m Hmu H1 H2 Hu H3).
    rewrite (@check_reloads (on_self (set_closed b) m) sc sk pair
                            Hmu H1 H2 Hu H3).
    reflexivity.
Qed.

(** A closed loader reloads when [check] is called by hand. *)
Example closed_loader_still_reloads :
  closed (self (state_of (Close (built polling_config rotating_world)))) =
    true /\
  on_reload_calls
    (events_of (check (state_of (Close (built polling_config
                                              rotating_world))))) = [7] /\
  deref
    (heap (sys (state_of (check (state_of (Close (built polling_config
                                                        rotating_world)))))))
    (certificate
       (self (state_of (check (state_of (Close (built polling_config
                                                      rotating_world)))))))
    = Some pair_two.
Proof. repeat split; reflexivity. Qed.

Lemma exec_no_go o m :
  goroutines (sys (state_of (exec o m))) = goroutines (sys m) /\
  count_go (events_of (exec o m)) = 0.
Proof.
  destruct o; cbn [exec].
  - split; [|apply check_no_recv_no_go].
    check_paths m; reflexivity.
  - pose proof (Close_frame m) as (_ & _ & _ & _ & _ & Hs & _).
    rewrite Hs. split; [reflexivity|].
    destruct m as [[cfg [|] [|] [[cap len]|] p ct kt] s]; try reflexivity.
    unfold Close, bind, mu_Lock, mu_Unlock, rd, wr, get_closeChan, ret,
      closeChan_send. cbn -[Nat.ltb]. destruct (len <? cap); reflexivity.
  - destruct m as [[cfg [|] c ch p ct kt] s]; split; reflexivity.
  - destruct m as [[cfg [|] c ch p ct kt] s]; split; reflexivity.
  - unfold closeChan_recv.
    destruct (closeChan (self m)) as [[cap [|n]]|]; split; reflexivity.
Qed.

(** X12: The constructor is the only place where a goroutine is started: no
    sequence of operations on a loader starts another one, however it
    ends. *)
Theorem no_operation_starts_a_goroutine ops : forall m,
  goroutines (sys (state_of (exec_all ops m))) = goroutines (sys m) /\
  count_go (events_of (exec_all ops m)) = 0.
Proof.
  induction ops as [|o rest IH]; intros m; [split; reflexivity|].
  cbn [exec_all]. unfold bind.
  destruct (exec_no_go o m) as (Hg & Hc).
  destruct (exec o m) as [[[[] | msg |] m1] e1]; cbn in Hg, Hc;
    try (split; assumption).
  destruct (IH m1) as (Hg' & Hc').
  destruct (exec_all rest m1) as [[r m2] e2]. cbn in Hg', Hc' |- *.
  rewrite count_go_app. split; [congruence | lia].
Qed.



(** ** The mutex, for all four methods *)

(** X14: Whatever the state, [Close] holds the mutex for the read and the write
    of the flag and nothing else, and [IsClosed] for the read of the flag:
    the send on the channel comes after the unlock. *)
Theorem close_sends_outside_the_mutex m :
  mu (self m) = false ->
  critical_sections (events_of (Close m)) =
    [[EvRead f_closed; EvWrite f_closed]] /\
  critical_sections (events_of (IsClosed m)) = [[EvRead f_closed]] /\
  (forall before after,
     events_of (Close m) = before ++ EvSend :: after ->
     before = [EvLock; EvRead f_closed; EvWrite f_closed; EvUnlock] /\
     after = []).
Proof.
  intros Hmu.
  destruct m as [[cfg b c [[cap len]|] p ct kt] s]; cbn in Hmu; subst b.
  - unfold Close, bind, mu_Lock, mu_Unlock, rd, wr, get_closeChan, ret,
      closeChan_send.
    destruct c; cbn -[Nat.ltb].
    + split; [reflexivity|]. split; [reflexivity|].
      intros before after H.
      do 5 (destruct before as [|? before]; try discriminate).
    + destruct (len <? cap); cbn.
      * split; [reflexivity|]. split; [reflexivity|].
        intros before after H.
        do 4 (destruct before as [|? before]; try discriminate).
        destruct before as [|? before]; [|destruct before; discriminate].
        inversion H; subst. auto.
      * split; [reflexivity|]. split; [reflexivity|].
        intros before after H.
        do 5 (destruct before as [|? before]; try discriminate).
  - split; [destruct c; reflexivity|]. split; [reflexivity|].
    intros before after H.
    destruct c; cbn in H;
      do 5 (destruct before as [|? before]; try discriminate).
Qed.

Lemma close_sends_outside_the_mutex_witness :
  mu (self (built polling_config still_world)) = false /\
  events_of (Close (built polling_config still_world)) =
    [EvLock; EvRead f_closed; EvWrite f_closed; EvUnlock] ++ EvSend :: [] /\
  critical_sections (events_of (Close (built polling_config still_world))) =
    [[EvRead f_closed; EvWrite f_closed]].
Proof.
  assert (Hmu : mu (self (built polling_config still_world)) = false)
    by reflexivity.
  destruct (@close_sends_outside_the_mutex _ Hmu) as (Hsec & _).
  split; [exact Hmu|]. split; [reflexivity | exact Hsec].
Defined.

(** Every method keeps the mutex for at most two field accesses. *)
Lemma exec_events_scoped o m : scoped 2 None (events_of (exec o m)) = true.
Proof.
  destruct o; cbn [exec].
  - check_paths m; cbn [events_of snd];
      unfold probe_events, compare_events, notify_error, notify_reload;
      repeat match goal with
             | |- context [if ?c then _ else _] => destruct c
             end;
      try destruct (OnError (config (self m)));
      try destruct (OnReload (config (self m)));
      reflexivity.
  - destruct m as [[cfg [|] [|] [[cap len]|] p ct kt] s]; try reflexivity.
    unfold Close, bind, mu_Lock, mu_Unlock, rd, wr, get_closeChan, ret,
      closeChan_send. cbn -[Nat.ltb]. destruct (len <? cap); reflexivity.
  - destruct m as [[cfg [|] c ch p ct kt] s]; reflexivity.
  - destruct m as [[cfg [|] c ch p ct kt] s]; reflexivity.
  - unfold closeChan_recv.
    destruct (closeChan (self m)) as [[cap [|n]]|]; reflexivity.
Qed.

Lemma method_threads_ok calls : pool_ok 2 (method_threads calls).
Proof.
  intros t todo Hn. unfold thread_ok. cbn in Hn |- *.
  apply nth_error_In in Hn. apply in_map_iff in Hn.
  destruct Hn as ((o & m) & <- & _). apply exec_events_scoped.
Qed.

(** X15: However calls of [check], [Close], [IsClosed] and [GetCertificate]
    (and the goroutine's receive) are interleaved, a thread that waits for
    the mutex waits for a holder that has at most two field accesses left
    before it unlocks, none of them I/O, a callback, a channel operation or
    the start of a goroutine. *)
Theorem no_method_holds_the_mutex_for_long calls picks st t owner :
  run_schedule picks (method_threads calls) = Some st ->
  waits_for t owner st ->
  exists acc rest,
    nth_error (pool st) owner = Some (acc ++ EvUnlock :: rest) /\
    length acc <= 2 /\
    forallb is_access acc = true /\
    forallb (fun e => negb (is_slow e)) acc = true.
Proof.
  intros Hrun (Hne & Hholder & rest_t & Ht).
  pose proof (run_schedule_ok picks (method_threads_ok calls) Hrun) as Hok.
  assert (Hfree : forall o, holder (method_threads calls) = Some o ->
                 exists todo,
                   nth_error (pool (method_threads calls)) o = Some todo)
    by (cbn; discriminate).
  destruct (@holder_in_pool picks _ _ Hfree Hrun _ Hholder) as (todo & Hn).
  pose proof (Hok _ _ Hn) as Hthread. unfold thread_ok in Hthread.
  rewrite Hholder in Hthread. cbn in Hthread. rewrite Nat.eqb_refl in Hthread.
  destruct Hthread as (k & Hk & Hs).
  destruct (scoped_held_shape _ _ _ Hs) as (acc & rest & -> & Hl & Hacc & _).
  exists acc, rest. split; [exact Hn|]. split; [lia|]. split; [exact Hacc|].
  clear - Hacc. induction acc as [|e acc IH]; [reflexivity|].
  cbn in Hacc |- *. apply andb_prop in Hacc. destruct Hacc as [He Hacc].
  rewrite (IH Hacc). destruct e; try discriminate; reflexivity.
Qed.

Lemma no_method_holds_the_mutex_for_long_witness :
  run_schedule [0; 0]
    (method_threads [(op_Close, built polling_config still_world);
                     (op_GetCertificate None,
                      built polling_config still_world)]) =
    Some (mkThreads (Some 0)
            [[EvWrite f_closed; EvUnlock; EvSend];
             [EvLock; EvRead f_certificate; EvUnlock]]) /\
  waits_for 1 0
    (mkThreads (Some 0)
       [[EvWrite f_closed; EvUnlock; EvSend];
        [EvLock; EvRead f_certificate; EvUnlock]]) /\
  exists acc rest,
    nth_error [[EvWrite f_closed; EvUnlock; EvSend];
               [EvLock; EvRead f_certificate; EvUnlock]] 0
      = Some (acc ++ EvUnlock :: rest) /\
    length acc <= 2.
Proof.
  assert (Hrun :
    run_schedule [0; 0]
      (method_threads [(op_Close, built polling_config still_world);
                       (op_GetCertificate None,
                        built polling_config still_world)]) =
      Some (mkThreads (Some 0)
              [[EvWrite f_closed; EvUnlock; EvSend];
               [EvLock; EvRead f_certificate; EvUnlock]]))
    by reflexivity.
  assert (Hw : waits_for 1 0
                 (mkThreads (Some 0)
                    [[EvWrite f_closed; EvUnlock; EvSend];
                     [EvLock; EvRead f_certificate; EvUnlock]])).
  { split; [discriminate|]. split; [reflexivity|].
    exists [EvRead f_certificate; EvUnlock]. reflexivity. }
  destruct (@no_method_holds_the_mutex_for_long _ _ _ 1 0 Hrun Hw)
    as (acc & rest & Hn & Hl & _).
  split; [exact Hrun|]. split; [exact Hw|].
  exists acc, rest. split; [exact Hn | exact Hl].
Defined.

(** ** The loop and the files *)

(** The goroutine never panics, whatever the files, the callbacks and the
    state of the loader. *)
Lemma run_never_panics choices : forall m msg,
  outcome_of (run choices m) <> Panic msg.
Proof.
  induction choices as [|c rest IH]; intros m msg; [discriminate|].
  destruct c; cbn [run].
  - unfold bind. pose proof (check_never_panics m) as Hc.
    destruct (check m) as [[[[] | msg' |] m1] e1]; cbn in Hc |- *.
    + specialize (IH m1 msg).
      destruct (run rest m1) as [[r m2] e2]. exact IH.
    + exfalso. apply (Hc msg'). reflexivity.
    + discriminate.
  - unfold closeChan_recv.
    destruct (closeChan (self m)) as [[cap [|n]]|]; discriminate.
Qed.

(** X16: No failure stops the polling of a loader without callbacks: on a
    loader reached from a successful construction whose [OnError] and
    [OnReload] are nil, none of any number of timer ticks panics or blocks,
    whatever the stats and loads return; afterwards the loader still
    publishes a loaded pair and is closed or open as before.  With both
    callbacks nil the loop panics in no state and on no choice of cases. *)
Theorem polling_survives_failures n : forall m,
  reachable m ->
  OnError (config (self m)) = None ->
  OnReload (config (self m)) = None ->
  outcome_of (run (repeat case_timer n) m) = Done tt /\
  on_error_calls (events_of (run (repeat case_timer n) m)) = [] /\
  on_reload_calls (events_of (run (repeat case_timer n) m)) = [] /\
  reachable (state_of (run (repeat case_timer n) m)) /\
  holds_key_pair (state_of (run (repeat case_timer n) m)) /\
  closed (self (state_of (run (repeat case_timer n) m))) = closed (self m) /\
  (forall choices m0 msg,
     OnError (config (self m0)) = None ->
     OnReload (config (self m0)) = None ->
     outcome_of (run choices m0) <> Panic msg).
Proof.
  induction n as [|n IH]; intros m Hr He Hl.
  - cbn. split; [reflexivity|]. split; [reflexivity|]. split; [reflexivity|].
    split; [exact Hr|].
    split; [apply (@reachable_inv _ Hr)|]. split; [reflexivity|].
    intros choices m0 msg _ _. apply run_never_panics.
  - cbn [repeat run]. unfold bind.
    pose proof (@reachable_inv _ Hr) as Hinv.
    pose proof (check_returns m (proj1 Hinv)) as Hret.
    pose proof (check_frame m) as (Hcfg & Hcl & _).
    pose proof (check_calls_need_callbacks m) as (Hne & Hnr).
    specialize (Hne He). specialize (Hnr Hl).
    destruct (check m) as [[r m1] e1] eqn:Hc.
    cbn in Hret, Hcl, Hcfg, Hne, Hnr. subst r.
    assert (Hr1 : reachable m1).
    { eapply reachable_step with (o := op_check); [exact Hr | exact Hc]. }
    rewrite <- Hcfg in He, Hl.
    destruct (IH m1 Hr1 He Hl) as (Ho & He' & Hl' & Hre & Hk & Hcl' & Hp).
    destruct (run (repeat case_timer n) m1) as [[r m2] e2].
    cbn in Ho, He', Hl', Hre, Hk, Hcl' |- *. subst r.
    rewrite on_error_calls_app, on_reload_calls_app, Hne, Hnr, He', Hl'.
    split; [reflexivity|]. split; [reflexivity|]. split; [reflexivity|].
    split; [exact Hre|]. split; [exact Hk|].
    split; [congruence | exact Hp].
Qed.

Lemma polling_survives_failures_witness :
  reachable (built quiet_polling_config empty_then_nothing) /\
  OnError (config (self (built quiet_polling_config empty_then_nothing)))
    = None /\
  OnReload (config (self (built quiet_polling_config empty_then_nothing)))
    = None /\
  outcome_of (run (repeat case_timer 4)
                  (built quiet_polling_config empty_then_nothing)) = Done tt /\
  first_io_error (events_of (run (repeat case_timer 4)
                                 (built quiet_polling_config
                                        empty_then_nothing))) =
    Some "no such file or directory".
Proof.
  assert (Hr : reachable (built quiet_polling_config empty_then_nothing))
    by (eapply built_reachable; reflexivity).
  destruct (@polling_survives_failures 4 _ Hr eq_refl eq_refl) as (Ho & _).
  split; [exact Hr|]. split; [reflexivity|]. split; [reflexivity|].
  split; [exact Ho | reflexivity].
Defined.

(** ** When the published pair changes *)

Lemma successful_loads_app e1 e2 :
  successful_loads (e1 ++ e2) = successful_loads e1 + successful_loads e2.
Proof.
  induction e1 as [|e e1 IH]; [reflexivity|].
  destruct e as [| ? ? [|] | | | | | | | | |]; cbn; rewrite IH; reflexivity.
Qed.

Lemma exec_keeps_pair_unless_loaded o m :
  successful_loads (events_of (exec o m)) = 0 ->
  certificate (self (state_of (exec o m))) = certificate (self m) /\
  certModTime (self (state_of (exec o m))) = certModTime (self m) /\
  keyModTime (self (state_of (exec o m))) = keyModTime (self m) /\
  heap (sys (state_of (exec o m))) = heap (sys m).
Proof.
  destruct o; cbn [exec].
  - check_paths m; cbn [events_of state_of fst snd self sys heap later];
      rewrite ?successful_loads_app; cbn [successful_loads];
      intros H; try (auto; fail); lia.
  - intros _. pose proof (Close_frame m) as (_ & Hp & Hc & Hk & _ & Hs & _).
    rewrite Hs. auto.
  - intros _. destruct m as [[cfg [|] c ch p ct kt] s]; auto.
  - intros _. destruct m as [[cfg [|] c ch p ct kt] s]; auto.
  - intros _. unfold closeChan_recv.
    destruct (closeChan (self m)) as [[cap [|n]]|]; auto.
Qed.

(** X17: The published pointer, the two stored modification times and the heap
    change only when a load has returned a certificate: a sequence of
    operations without a successful load, however it ends, leaves all four
    as they were. *)
Theorem pair_changes_only_on_a_successful_load ops : forall m,
  successful_loads (events_of (exec_all ops m)) = 0 ->
  certificate (self (state_of (exec_all ops m))) = certificate (self m) /\
  certModTime (self (state_of (exec_all ops m))) = certModTime (self m) /\
  keyModTime (self (state_of (exec_all ops m))) = keyModTime (self m) /\
  heap (sys (state_of (exec_all ops m))) = heap (sys m).
Proof.
  induction ops as [|o rest IH]; intros m; [cbn; auto|].
  cbn [exec_all]. unfold bind.
  pose proof (exec_keeps_pair_unless_loaded o m) as H1.
  destruct (exec o m) as [[[[] | msg |] m1] e1];
    cbn [events_of state_of fst snd] in H1 |- *; try exact H1.
  specialize (IH m1).
  destruct (exec_all rest m1) as [[r m2] e2].
  cbn [events_of state_of fst snd] in IH |- *.
  rewrite successful_loads_app. intros H.
  destruct H1 as (A1 & A2 & A3 & A4); [lia|].
  destruct IH as (B1 & B2 & B3 & B4); [lia|].
  repeat split; congruence.
Qed.

Lemma pair_changes_only_on_a_successful_load_witness :
  successful_loads
    (events_of (exec_all [op_check; op_Close; op_check; op_GetCertificate None]
                         (built polling_config corrupt_world))) = 0 /\
  load_attempts
    (events_of (exec_all [op_check; op_Close; op_check; op_GetCertificate None]
                         (built polling_config corrupt_world))) = 2 /\
  certificate
    (self (state_of
             (exec_all [op_check; op_Close; op_check; op_GetCertificate None]
                       (built polling_config corrupt_world)))) =
    certificate (self (built polling_config corrupt_world)).
Proof.
  assert (H : successful_loads
                (events_of
                   (exec_all [op_check; op_Close; op_check;
                              op_GetCertificate None]
                             (built polling_config corrupt_world))) = 0)
    by reflexivity.
  destruct (@pair_changes_only_on_a_successful_load
              [op_check; op_Close; op_check; op_GetCertificate None] _ H)
    as (Hp & _).
  split; [exact H|]. split; [reflexivity | exact Hp].
Defined.

(* ================================================================== *)
(** * Milliseconds *)

(** ** [UnixMilli] and the instant cut down to whole milliseconds *)

Lemma wrap64_add_l a b : wrap64 (wrap64 a + b) = wrap64 (a + b).
Proof.
  unfold wrap64.
  replace ((a + 2 ^ 63) mod 2 ^ 64 - 2 ^ 63 + b + 2 ^ 63)%Z
    with ((a + 2 ^ 63) mod 2 ^ 64 + b)%Z by ring.
  rewrite Zplus_mod_idemp_l.
  replace (a + 2 ^ 63 + b)%Z with (a + b + 2 ^ 63)%Z by ring.
  reflexivity.
Qed.

Lemma millis_of_nanos t :
  (unixNanoZ t / 1000000 = unixSec t * 1000 + nsec t / 1000000)%Z.
Proof.
  unfold unixNanoZ.
  replace (unixSec t * 1000000000 + nsec t)%Z
    with (unixSec t * 1000 * 1000000 + nsec t)%Z by ring.
  apply Z.div_add_l. lia.
Qed.

(** Wherever [Time.UnixMilli] is defined, it is the number of whole
    milliseconds since the epoch. *)
Lemma UnixMilli_exact t :
  fits_int64_millis t -> UnixMilli t = (unixNanoZ t / 1000000)%Z.
Proof.
  intros [_ Hfit]. unfold UnixMilli.
  rewrite wrap64_add_l, <- millis_of_nanos.
  apply wrap64_small. exact Hfit.
Qed.

(** Outside that range it is not: two times 2^61 seconds apart have the
    same [UnixMilli]. *)
Example UnixMilli_wraps :
  UnixMilli far_future = UnixMilli early /\
  (unixNanoZ far_future / 1000000 <> unixNanoZ early / 1000000)%Z.
Proof. split; [reflexivity | discriminate]. Qed.

(** Proves [fits_int64_millis] of a given time by computation. *)
Ltac fits_by_computation :=
  repeat split; vm_compute; (reflexivity || discriminate).

(** ** Change detection, in milliseconds *)

(** The code compares the int64 values of [Time.UnixMilli], which wrap
    around outside the range they are defined on: after a rewrite that
    moves both modification times 2^61 seconds on, the two stats succeed,
    both times differ from the stored ones once cut down to milliseconds,
    and yet the cycle attempts no load and keeps the published pointer. *)
Lemma reload_missed_beyond_int64_millis :
  seen_cert (built polling_config far_world) = inr (mkFileInfo far_future) /\
  seen_key (built polling_config far_world) = inr (mkFileInfo far_future) /\
  (unixNanoZ far_future / 1000000 <>
   unixNanoZ (certModTime (self (built polling_config far_world))) / 1000000)%Z /\
  (unixNanoZ far_future / 1000000 <>
   unixNanoZ (keyModTime (self (built polling_config far_world))) / 1000000)%Z /\
  load_attempts (events_of (check (built polling_config far_world))) = 0 /\
  ~ (load_attempts (events_of (check (built polling_config far_world))) = 1 <->
     (unixNanoZ far_future / 1000000 <>
      unixNanoZ (certModTime (self (built polling_config far_world)))
        / 1000000)%Z \/
     (unixNanoZ far_future / 1000000 <>
      unixNanoZ (keyModTime (self (built polling_config far_world)))
        / 1000000)%Z).
Proof.
  split; [reflexivity|]. split; [reflexivity|].
  split; [discriminate|]. split; [discriminate|].
  split; [reflexivity|].
  intros [_ H].
  assert (Hone : load_attempts
                   (events_of (check (built polling_config far_world))) = 1).
  { apply H. left. discriminate. }
  discriminate Hone.
Qed.

(** C3: in a cycle whose two stats succeed, when the two times seen and the
    two times stored are times whose milliseconds since the epoch fit an
    int64, a load is attempted exactly when one of the two modification
    times, cut down to whole milliseconds, differs from the stored one cut
    down likewise; when both agree the cycle ends normally, calls neither
    callback, allocates nothing and leaves the loader, hence the published
    pointer, as it was. *)
Theorem reload_iff_millisecond_changed m statCert statKey :
  seen_cert m = inr statCert ->
  seen_key m = inr statKey ->
  fits_int64_millis (ModTime statCert) ->
  fits_int64_millis (certModTime (self m)) ->
  fits_int64_millis (ModTime statKey) ->
  fits_int64_millis (keyModTime (self m)) ->
  (load_attempts (events_of (check m)) = 1 <->
     (unixNanoZ (ModTime statCert) / 1000000
        <> unixNanoZ (certModTime (self m)) / 1000000)%Z \/
     (unixNanoZ (ModTime statKey) / 1000000
        <> unixNanoZ (keyModTime (self m)) / 1000000)%Z) /\
  (load_attempts (events_of (check m)) = 0 <->
     (unixNanoZ (ModTime statCert) / 1000000
        = unixNanoZ (certModTime (self m)) / 1000000)%Z /\
     (unixNanoZ (ModTime statKey) / 1000000
        = unixNanoZ (keyModTime (self m)) / 1000000)%Z) /\
  ((unixNanoZ (ModTime statCert) / 1000000
      = unixNanoZ (certModTime (self m)) / 1000000)%Z ->
   (unixNanoZ (ModTime statKey) / 1000000
      = unixNanoZ (keyModTime (self m)) / 1000000)%Z ->
     outcome_of (check m) = Done tt /\
     on_error_calls (events_of (check m)) = [] /\
     on_reload_calls (events_of (check m)) = [] /\
     certificate (self (state_of (check m))) = certificate (self m) /\
     self (state_of (check m)) = self m /\
     heap (sys (state_of (check m))) = heap (sys m)).
Proof.
  intros H1 H2 F1 F2 F3 F4.
  rewrite <- !UnixMilli_exact by assumption.
  apply reload_iff_UnixMilli_changed; assumption.
Qed.

Lemma reload_iff_millisecond_changed_witness :
  (seen_cert (built polling_config rotating_world) = inr (mkFileInfo late) /\
   seen_key (built polling_config rotating_world) = inr (mkFileInfo late) /\
   fits_int64_millis late /\ fits_int64_millis early /\
   load_attempts (events_of (check (built polling_config rotating_world)))
     = 1) /\
  (seen_cert (built polling_config touched_world) =
     inr (mkFileInfo (mkTime 1700000000 250400000)) /\
   fits_int64_millis (mkTime 1700000000 250400000) /\
   load_attempts (events_of (check (built polling_config touched_world)))
     = 0).
Proof.
  assert (Flate : fits_int64_millis late) by fits_by_computation.
  assert (Fearly : fits_int64_millis early) by fits_by_computation.
  assert (Ftouch : fits_int64_millis (mkTime 1700000000 250400000))
    by fits_by_computation.
  split.
  - destruct (@reload_iff_millisecond_changed
                (built polling_config rotating_world)
                (mkFileInfo late) (mkFileInfo late)
                eq_refl eq_refl Flate Fearly Flate Fearly)
      as (Hone & _).
    split; [reflexivity|]. split; [reflexivity|].
    split; [exact Flate|]. split; [exact Fearly|].
    apply Hone. left. vm_compute. discriminate.
  - destruct (@reload_iff_millisecond_changed
                (built polling_config touched_world)
                (mkFileInfo (mkTime 1700000000 250400000))
                (mkFileInfo (mkTime 1700000000 250400000))
                eq_refl eq_refl Ftouch Fearly Ftouch Fearly)
      as (_ & Hzero & _).
    split; [reflexivity|]. split; [exact Ftouch|].
    apply Hzero. split; reflexivity.
Defined.

(** X7: A change is consumed by the reload that follows it.  After a
    successful reload, and for times whose milliseconds fit an int64, the
    next cycle whose two stats succeed attempts a load exactly when one of
    the times it sees, cut down to whole milliseconds, differs from the time
    the reloading cycle saw in its own stat (not from the time the file had
    when it was loaded); when both agree the cycle calls no callback and
    leaves the loader as the reload left it. *)
Theorem reload_consumes_the_change m statCert statKey pair statCert' statKey' :
  mu (self m) = false ->
  cycle_reloads m statCert statKey pair ->
  seen_cert (state_of (check m)) = inr statCert' ->
  seen_key (state_of (check m)) = inr statKey' ->
  fits_int64_millis (ModTime statCert) ->
  fits_int64_millis (ModTime statKey) ->
  fits_int64_millis (ModTime statCert') ->
  fits_int64_millis (ModTime statKey') ->
  (load_attempts (events_of (check (state_of (check m)))) = 1 <->
     (unixNanoZ (ModTime statCert') / 1000000
        <> unixNanoZ (ModTime statCert) / 1000000)%Z \/
     (unixNanoZ (ModTime statKey') / 1000000
        <> unixNanoZ (ModTime statKey) / 1000000)%Z) /\
  ((unixNanoZ (ModTime statCert') / 1000000
      = unixNanoZ (ModTime statCert) / 1000000)%Z ->
   (unixNanoZ (ModTime statKey') / 1000000
      = unixNanoZ (ModTime statKey) / 1000000)%Z ->
     load_attempts (events_of (check (state_of (check m)))) = 0 /\
     on_reload_calls (events_of (check (state_of (check m)))) = [] /\
     on_error_calls (events_of (check (state_of (check m)))) = [] /\
     self (state_of (check (state_of (check m)))) = self (state_of (check m))).
Proof.
  intros Hmu Hr H1' H2' F1 F2 F3 F4.
  rewrite <- !UnixMilli_exact by assumption.
  apply (@next_cycle_after_reload m statCert statKey pair); assumption.
Qed.

Lemma reload_consumes_the_change_witness :
  (cycle_reloads (built polling_config rotating_world)
                 (mkFileInfo late) (mkFileInfo late) pair_two /\
   load_attempts
     (events_of (check (state_of (check (built polling_config
                                               rotating_world))))) = 0) /\
  (cycle_reloads (built polling_config twice_rotating_world)
                 (mkFileInfo late) (mkFileInfo late) pair_two /\
   seen_cert (state_of (check (built polling_config twice_rotating_world))) =
     inr (mkFileInfo latest) /\
   load_attempts
     (events_of (check (state_of (check (built polling_config
                                               twice_rotating_world))))) = 1).
Proof.
  assert (Flate : fits_int64_millis late) by fits_by_computation.
  assert (Flatest : fits_int64_millis latest) by fits_by_computation.
  split.
  - assert (Hr : cycle_reloads (built polling_config rotating_world)
                   (mkFileInfo late) (mkFileInfo late) pair_two)
      by (repeat split; reflexivity).
    destruct (@reload_consumes_the_change
                (built polling_config rotating_world) _ _ _
                (mkFileInfo late) (mkFileInfo late) eq_refl Hr
                eq_refl eq_refl Flate Flate Flate Flate)
      as (_ & Hquiet).
    split; [exact Hr|]. apply (Hquiet eq_refl eq_refl).
  - assert (Hr : cycle_reloads (built polling_config twice_rotating_world)
                   (mkFileInfo late) (mkFileInfo late) pair_two)
      by (repeat split; reflexivity).
    destruct (@reload_consumes_the_change
                (built polling_config twice_rotating_world) _ _ _
                (mkFileInfo latest) (mkFileInfo latest) eq_refl Hr
                eq_refl eq_refl Flate Flate Flatest Flatest)
      as (Hone & _).
    split; [exact Hr|]. split; [reflexivity|].
    apply Hone. left. vm_compute. discriminate.
Defined.
